(** * High_Life: the PDF highlighter pipeline of [main.py]

    A shallow embedding of [main.py] (text extraction, chunking, the
    key-phrase client with its retry loop, the highlighter and the
    Streamlit driver), followed by the properties of the specification
    that were checked against it.

    Conventions of the embedding.
    - A Python [str] is a [string]; a character is the code point it
      holds, so the model covers texts whose code points are below 256.
    - A Python [int] that the program compares or counts with is a [Z];
      [len] results and loop indices are [nat].
    - A Python [float] is a binary64 number, a rational in lowest terms
      or infinity; [float] and [+] round to nearest, ties to even.
      [time.sleep] raises for a duration it cannot hold.
    - The PDF libraries, the temporary file and the HTTP service are
      parameters of the sections that use them; each of their calls
      returns or raises. *)

From Stdlib Require Import String Ascii List ZArith QArith Lia Bool Arith.
From Stdlib Require Import Permutation.
Import ListNotations.
Set Warnings "-register-all".
Close Scope Q_scope.
Open Scope string_scope.

(** ** Python string primitives *)

Module PyStr.

Definition nl : ascii := "010"%char.

(** The one-character string [chr(10)], the argument of [split] at line 77. *)
Definition newline : string := String nl EmptyString.

(** The blank-line separator, two line feeds: lines 19, 24 and 34. *)
Definition blank : string := String nl (String nl EmptyString).

Definition len (s : string) : nat := String.length s.

(** Truth value of a [str] in a condition: non-empty. *)
Definition truthy (s : string) : bool := negb (s =? "").

Fixpoint drop (n : nat) (s : string) : string :=
  match n, s with
  | O, _ => s
  | S _, EmptyString => EmptyString
  | S k, String _ s' => drop k s'
  end.

(** [s.split(sep)] for a non-empty [sep]: leftmost, non-overlapping
    occurrences, scanned from the left.  [skip] counts the characters of
    an occurrence that is being stepped over. *)
Fixpoint split_from (sep s : string) (skip : nat) : list string :=
  match s with
  | EmptyString => [EmptyString]
  | String c s' =>
      match skip with
      | S k => split_from sep s' k
      | O =>
          if prefix sep s
          then EmptyString :: split_from sep s' (len sep - 1)
          else match split_from sep s' 0 with
               | p :: ps => String c p :: ps
               | [] => [String c EmptyString]
               end
      end
  end.

Definition split (sep s : string) : list string := split_from sep s 0.

(** [sep.join(parts)] *)
Definition join (sep : string) (parts : list string) : string :=
  String.concat sep parts.

(** [str.isspace] on one character, for code points below 256. *)
Definition isspace (c : ascii) : bool :=
  let n := nat_of_ascii c in
  (((9 <=? n) && (n <=? 13)) || ((28 <=? n) && (n <=? 32))
   || (n =? 133) || (n =? 160))%nat.

Fixpoint lstrip (s : string) : string :=
  match s with
  | EmptyString => EmptyString
  | String c s' => if isspace c then lstrip s' else s
  end.

Fixpoint rstrip (s : string) : string :=
  match s with
  | EmptyString => EmptyString
  | String c s' =>
      match rstrip s' with
      | EmptyString => if isspace c then EmptyString else String c EmptyString
      | r => String c r
      end
  end.

(** [s.strip()] *)
Definition strip (s : string) : string := rstrip (lstrip s).

Fixpoint count_char (c : ascii) (s : string) : nat :=
  match s with
  | EmptyString => 0
  | String x s' => (if Ascii.eqb x c then 1 else 0) + count_char c s'
  end.

Fixpoint all_space (s : string) : bool :=
  match s with
  | EmptyString => true
  | String c s' => isspace c && all_space s'
  end.

Definition first_char (s : string) : option ascii :=
  match s with
  | EmptyString => None
  | String c _ => Some c
  end.

Fixpoint last_char (s : string) : option ascii :=
  match s with
  | EmptyString => None
  | String c EmptyString => Some c
  | String _ s' => last_char s'
  end.

(** The blank-line separator occurs in [s]. *)
Fixpoint has_blank (s : string) : bool :=
  match s with
  | EmptyString => false
  | String _ s' => prefix blank s || has_blank s'
  end.

Definition starts_nl (s : string) : bool :=
  match s with
  | EmptyString => false
  | String d _ => Ascii.eqb d nl
  end.

Definition ends_nl (s : string) : bool :=
  match last_char s with
  | Some c => Ascii.eqb c nl
  | None => false
  end.

(** A string that can be followed by the separator and cut off again at
    that separator: it holds no separator and does not end in a line
    feed. *)
Definition closed (p : string) : bool := negb (has_blank p) && negb (ends_nl p).

End PyStr.

Import PyStr.

(** ** Lines 13-20: [extract_text_from_pdf]

    [PyPDF2] is outside the repository: a page is given by the text that
    [page.extract_text()] returns for it, in page order. *)

Module Extractor.

Definition extract_text_from_pdf (pages : list string) : string :=
  fold_left (fun text page_text => text ++ (page_text ++ blank)) pages "".

End Extractor.

(** ** Lines 22-41: [chunk_text] *)

Module Chunker.

Record state := { chunks : list string; current_chunk : string }.

Definition init : state := {| chunks := []; current_chunk := "" |}.

(** One iteration of the loop of lines 28-36. *)
Definition step (max_chunk_size : Z) (st : state) (paragraph : string) : state :=
  if (max_chunk_size <? Z.of_nat (len (current_chunk st) + len paragraph))%Z
     && truthy (current_chunk st)
  then {| chunks := chunks st ++ [current_chunk st];
          current_chunk := paragraph |}
  else if truthy (current_chunk st)
       then {| chunks := chunks st;
               current_chunk := current_chunk st ++ blank ++ paragraph |}
       else {| chunks := chunks st; current_chunk := paragraph |}.

(** Lines 38-41. *)
Definition finish (st : state) : list string :=
  if truthy (current_chunk st)
  then chunks st ++ [current_chunk st]
  else chunks st.

Definition chunk_text (text : string) (max_chunk_size : Z) : list string :=
  let paragraphs := split blank text in
  finish (fold_left (step max_chunk_size) paragraphs init).

Definition default_max_chunk_size : Z := 3000.

(** What the size test of line 29 gives for a chunk: it is one whole
    paragraph, or it is at most two characters over the maximum. *)
Definition within (max_chunk_size : Z) (paragraphs : list string) (c : string) : Prop :=
  In c paragraphs \/ (Z.of_nat (len c) <= max_chunk_size + 2)%Z.

(** A run of paragraphs that [split] gives back from its join: every
    paragraph but the last is closed, the last holds no separator. *)
Definition group_ok (g : list string) : Prop :=
  exists init last,
    g = (init ++ [last])%list
    /\ Forall (fun p => closed p = true) init
    /\ has_blank last = false.

(** The paragraphs behind a state of the loop: [groups] are the runs of
    paragraphs joined into the chunks emitted so far, [g] the run joined
    into the open chunk. *)
Definition tracks (st : state) (groups : list (list string)) (g : list string) : Prop :=
  chunks st = map (join blank) groups
  /\ ((current_chunk st = "" /\ g = [])
      \/ (current_chunk st <> "" /\ current_chunk st = join blank g)).

End Chunker.

(** ** The JSON value that [response.json()] returns *)

Module Json.

Inductive value :=
| JNull
| JBool (b : bool)
| JNum (q : Q)
| JStr (s : string)
| JArr (items : list value)
| JObj (fields : list (string * value)).

(** Item access of a [dict] by key.  [JObj] lists the items of the parsed
    object, one per key. *)
Fixpoint lookup (key : string) (fields : list (string * value)) : option value :=
  match fields with
  | [] => None
  | (k, v) :: rest => if (k =? key)%string then Some v else lookup key rest
  end.

(** [d.get(key, default)] *)
Definition get (key : string) (default : value) (fields : list (string * value)) : value :=
  match lookup key fields with
  | Some v => v
  | None => default
  end.

End Json.

Import Json.

(** ** Python floats

    A [float] is an IEEE binary64 number.  The program forms two of them
    for a rate limit: the value [float] reads at line 85 and that value
    plus one.  A finite float is given by the rational it stands for, in
    lowest terms; only non-negative ones occur. *)

Module Double.

Inductive t :=
| Finite (q : Q)
| Infinity.

(** [n / d] divided by [2 ^ k], as a fraction. *)
Definition ratio (n d k : Z) : Z * Z :=
  if (0 <=? k)%Z then (n, d * 2 ^ k)%Z else (n * 2 ^ (- k), d)%Z.

(** The binary exponent of [n / d] for positive [n] and [d]: the [e] with
    [2 ^ e <= n / d < 2 ^ (e + 1)]. *)
Definition exponent (n d : Z) : Z :=
  let e := (Z.log2 n - Z.log2 d)%Z in
  let (a, b) := ratio n d e in
  if (b <=? a)%Z then e else (e - 1)%Z.

(** [a / b] rounded to the nearest integer, a tie to the even one. *)
Definition nearest_even (a b : Z) : Z :=
  let f := (a / b)%Z in
  let r := (a mod b)%Z in
  if (2 * r <? b)%Z then f
  else if (b <? 2 * r)%Z then (f + 1)%Z
  else if Z.even f then f else (f + 1)%Z.

(** [m * 2 ^ k] *)
Definition scaled (m k : Z) : Q :=
  if (0 <=? k)%Z then inject_Z (m * 2 ^ k) else Qmake m (Z.to_pos (2 ^ (- k))).

(** The float nearest to a non-negative rational, a tie to the even one:
    53 significant bits, no unit below [2 ^ -1074], infinity from
    [2 ^ 1024] on. *)
Definition round (q : Q) : t :=
  let n := Qnum q in
  let d := Zpos (Qden q) in
  if (n <=? 0)%Z then Finite (inject_Z 0)
  else
    let k := Z.max (exponent n d - 52) (-1074) in
    let (a, b) := ratio n d k in
    let m := nearest_even a b in
    if (0 <=? k)%Z && (2 ^ 1024 <=? m * 2 ^ k)%Z then Infinity
    else Finite (Qred (scaled m k)).

(** [x + y] *)
Definition add (x y : t) : t :=
  match x, y with
  | Finite a, Finite b => round (Qplus a b)
  | _, _ => Infinity
  end.

Definition of_Z (n : Z) : t := Finite (inject_Z n).

(** [1 <= x] *)
Definition at_least_one (x : t) : Prop :=
  match x with
  | Finite q => Qle (inject_Z 1) q
  | Infinity => True
  end.

End Double.

(** ** Effects: the HTTP service, the clock, the Streamlit front-end *)

Definition bytes := list Byte.byte.

(** What [requests.post] hands back (lines 70-74).  [json] is [None] when
    the body does not decode, so that [response.json()] raises. *)
Record response := {
  status_code : Z;
  json : option Json.value;
  text : string
}.

(** The phrase service: answering one request may change its state.  A
    request that raises (no connection) answers [None]. *)
Record Service := {
  World : Type;
  post : string -> string -> World -> option response * World
}.

Inductive event :=
| Post (api_key chunk : string)            (* line 70 *)
| Sleep (seconds : Q)                      (* lines 90, 206, when it returns *)
| Warn_rate_limit (wait_time : Double.t)   (* line 89 *)
| Error_status (status : Z)                (* line 95 *)
| Error_text (body : string)               (* line 96 *)
| Title                                    (* lines 144-145 *)
| File_uploader                            (* line 148 *)
| Info_extracted (text_length : nat)       (* line 162 *)
| Text_shown (text : string)               (* lines 165-166 *)
| Info_split (n : nat)                     (* line 174 *)
| Warn_large (n : nat)                     (* line 178 *)
| Button_shown                             (* line 183 *)
| Write_processing                         (* line 187 *)
| Progress_start                           (* line 188 *)
| Progress (done total : nat)              (* line 195: done / total *)
| Info_processing (i total : nat)          (* line 198 *)
| Tmp_write (data : bytes)                 (* lines 104-106, returning or not *)
| Tmp_unlink                               (* line 139 *)
| Success                                  (* line 213 *)
| Download (data : bytes)                  (* lines 214-219 *)
| Error_exception                          (* lines 222-224 *).

Definition is_post (e : event) : bool :=
  match e with
  | Post _ _ => true
  | _ => false
  end.

(** The events of lines 185-219, the processing that the confirmation of
    line 183 guards. *)
Definition is_processing (e : event) : bool :=
  match e with
  | Write_processing | Progress_start | Progress _ _ | Info_processing _ _
  | Post _ _ | Sleep _ | Warn_rate_limit _ | Error_status _ | Error_text _
  | Tmp_write _ | Tmp_unlink | Success | Download _ => true
  | _ => false
  end.

Inductive result (A : Type) :=
| Ok (a : A)
| Raised.

Arguments Ok {A} a.
Arguments Raised {A}.

Module Prog.
Section Monad.

Variable W : Type.

(** A computation returns or raises, leaves a trace of events and a new
    state of the service. *)
Definition t (A : Type) : Type := W -> result A * list event * W.

Definition ret {A} (a : A) : t A := fun w => (Ok a, [], w).

Definition raise {A} : t A := fun w => (Raised, [], w).

Definition emit (e : event) : t unit := fun w => (Ok tt, [e], w).

Definition bind {A B} (m : t A) (f : A -> t B) : t B :=
  fun w =>
    match m w with
    | (Ok a, tr, w1) =>
        let '(r, tr', w2) := f a w1 in (r, (tr ++ tr')%list, w2)
    | (Raised, tr, w1) => (Raised, tr, w1)
    end.

(** [try: body  except Exception: handler] *)
Definition try_except {A} (body handler : t A) : t A :=
  fun w =>
    match body w with
    | (Ok a, tr, w1) => (Ok a, tr, w1)
    | (Raised, tr, w1) =>
        let '(r, tr', w2) := handler w1 in (r, (tr ++ tr')%list, w2)
    end.

(** [try: body  finally: cleanup] *)
Definition try_finally {A} (body : t A) (cleanup : t unit) : t A :=
  fun w =>
    let '(r, tr, w1) := body w in
    match cleanup w1 with
    | (Ok _, tr', w2) => (r, (tr ++ tr')%list, w2)
    | (Raised, tr', w2) => (Raised, (tr ++ tr')%list, w2)
    end.

Definition of_option {A} (o : option A) : t A :=
  match o with
  | Some a => ret a
  | None => raise
  end.

End Monad.
End Prog.

Arguments Prog.ret {W A} a.
Arguments Prog.raise {W A}.
Arguments Prog.emit {W} e.
Arguments Prog.bind {W A B} m f.
Arguments Prog.try_except {W A} body handler.
Arguments Prog.try_finally {W A} body cleanup.
Arguments Prog.of_option {W A} o.

Notation "x <- m ;; k" := (Prog.bind m (fun x => k))
  (at level 61, m at next level, right associativity).
Notation "m ;; k" := (Prog.bind m (fun _ => k))
  (at level 61, right associativity).

(** ** The clock

    [time.sleep(secs)] of CPython turns the duration into a count of
    nanoseconds held in a signed 64-bit integer.  It raises [OverflowError]
    when the count does not fit, that is from about 9.2e9 seconds on and for
    infinity, and [ValueError] for a negative duration. *)

Module Clock.

Definition nanoseconds_limit : Z := (2 ^ 63)%Z.

Definition sleep_raises (secs : Double.t) : bool :=
  match secs with
  | Double.Finite q =>
      (Qnum q <? 0)%Z
      || (nanoseconds_limit * Zpos (Qden q) <=? Qnum q * 10 ^ 9)%Z
  | Double.Infinity => true
  end.

Definition seconds (secs : Double.t) : Q :=
  match secs with
  | Double.Finite q => q
  | Double.Infinity => inject_Z 0
  end.

Definition sleep {W} (secs : Double.t) : Prog.t W unit :=
  if sleep_raises secs then Prog.raise else Prog.emit (Sleep (seconds secs)).

End Clock.

(** ** Lines 43-99: [get_key_phrases_for_chunk] *)

Module Client.

Definition isdigit (c : ascii) : bool :=
  let n := nat_of_ascii c in ((48 <=? n) && (n <=? 57))%nat.

(** The longest run of digits at the front, and what follows it. *)
Fixpoint span_digits (s : string) : string * string :=
  match s with
  | EmptyString => (EmptyString, EmptyString)
  | String c s' =>
      if isdigit c
      then let (d, r) := span_digits s' in (String c d, r)
      else (EmptyString, s)
  end.

Fixpoint strip_prefix (p s : string) : option string :=
  match p, s with
  | EmptyString, _ => Some s
  | String a p', String b s' =>
      if Ascii.eqb a b then strip_prefix p' s' else None
  | String _ _, EmptyString => None
  end.

(** The pattern of line 83 tried at the front of [s]: the literal, one or
    more digits, a dot, one or more digits, the letter s.  A digit run is
    never followed by a digit, so the greedy match is the only one.
    Returns [group(1)]. *)
Definition match_here (s : string) : option string :=
  match strip_prefix "try again in " s with
  | None => None
  | Some r =>
      match span_digits r with
      | (EmptyString, _) => None
      | (_, EmptyString) => None
      | (whole, String c r') =>
          if Ascii.eqb c "." then
            match span_digits r' with
            | (EmptyString, _) => None
            | (_, EmptyString) => None
            | (frac, String c' _) =>
                if Ascii.eqb c' "s" then Some (whole ++ "." ++ frac) else None
            end
          else None
      end
  end.

(** [re.search]: the first position where the pattern matches. *)
Fixpoint search (s : string) : option string :=
  match match_here s with
  | Some g => Some g
  | None =>
      match s with
      | EmptyString => None
      | String _ s' => search s'
      end
  end.

Definition digit_value (c : ascii) : Z := Z.of_nat (nat_of_ascii c - 48).

Fixpoint digits_value (acc : Z) (s : string) : Z :=
  match s with
  | EmptyString => acc
  | String c s' => digits_value (10 * acc + digit_value c) s'
  end.

(** The value of the decimal [whole.frac]. *)
Definition decimal (whole frac : string) : Q :=
  Qplus (inject_Z (digits_value 0 whole))
        (Qmake (digits_value 0 frac) (Pos.pow 10 (Pos.of_nat (len frac)))).

(** [float(g)] for a capture of the pattern, digits dot digits: the float
    nearest to the decimal.  [None] stands for the [ValueError] of any
    other argument. *)
Definition float (g : string) : option Double.t :=
  match span_digits g with
  | (EmptyString, _) => None
  | (_, EmptyString) => None
  | (whole, String c r) =>
      if Ascii.eqb c "." then
        match span_digits r with
        | (EmptyString, _) => None
        | (frac, EmptyString) => Some (Double.round (decimal whole frac))
        | (_, String _ _) => None
        end
      else None
  end.

Definition default_wait : Double.t := Double.of_Z 10.

(** Line 82, [response.json().get("error", {}).get("message", "")];
    [None] when it raises: a body that is not JSON, a top level or an
    [error] member that is not an object (no [get]). *)
Definition error_message (r : response) : option Json.value :=
  match json r with
  | Some (JObj top) =>
      match Json.get "error" (JObj []) top with
      | JObj err => Some (Json.get "message" (JStr "") err)
      | _ => None
      end
  | _ => None
  end.

(** Lines 83-84, [wait_match.group(1)] when there is a match.  A message
    that is not a string makes [re.search] raise. *)
Definition hint (r : response) : option string :=
  match error_message r with
  | Some (JStr message) => search message
  | _ => None
  end.

(** Lines 80-87.  Every failure inside the [try] keeps the default. *)
Definition wait_time (r : response) : Double.t :=
  match hint r with
  | Some g =>
      match float g with
      | Some seconds => Double.add seconds (Double.of_Z 1)
      | None => default_wait
      end
  | None => default_wait
  end.

(** Line 77, the subscript chain [json()["choices"][0]["message"]["content"]];
    [None] when any step raises. *)
Definition content_of (r : response) : option string :=
  match json r with
  | Some (JObj top) =>
      match lookup "choices" top with
      | Some (JArr (JObj first :: _)) =>
          match lookup "message" first with
          | Some (JObj message) =>
              match lookup "content" message with
              | Some (JStr content) => Some content
              | _ => None
              end
          | _ => None
          end
      | _ => None
      end
  | _ => None
  end.

(** A digit run stops in front of [s]. *)
Definition stops (s : string) : bool :=
  match s with
  | EmptyString => true
  | String c _ => negb (isdigit c)
  end.

(** [range(n)] *)
Definition range (n : Z) : list Z := map Z.of_nat (seq 0 (Z.to_nat n)).

Section WithService.

Variable S : Service.

Definition request (api_key chunk : string) : Prog.t (World S) response :=
  fun w =>
    match post S api_key chunk w with
    | (Some r, w1) => (Ok r, [Post api_key chunk], w1)
    | (None, w1) => (Raised, [Post api_key chunk], w1)
    end.

(** The loop of lines 69-97 over the attempts still to run. *)
Fixpoint attempts (chunk api_key : string) (retry_count : Z) (todo : list Z)
  : Prog.t (World S) (list string) :=
  match todo with
  | [] => Prog.ret []                                          (* line 99 *)
  | attempt :: rest =>
      response <- request api_key chunk ;;
      if (status_code response =? 200)%Z then
        content <- Prog.of_option (content_of response) ;;
        Prog.ret (split newline (strip content))
      else if (status_code response =? 429)%Z then
        let wait := wait_time response in
        Prog.emit (Warn_rate_limit wait) ;;
        Clock.sleep wait ;;                                    (* line 90 *)
        if (attempt =? retry_count - 1)%Z
        then Prog.ret []
        else attempts chunk api_key retry_count rest
      else
        Prog.emit (Error_status (status_code response)) ;;
        Prog.emit (Error_text (text response)) ;;
        Prog.ret []
  end.

Definition get_key_phrases_for_chunk (chunk api_key : string) (retry_count : Z)
  : Prog.t (World S) (list string) :=
  attempts chunk api_key retry_count (range retry_count).

(** The answers of the service to [n] requests in a row for the same
    chunk, up to the first request that raises. *)
Fixpoint answers (api_key chunk : string) (n : nat) (w : World S)
  : list response * World S :=
  match n with
  | O => ([], w)
  | Datatypes.S k =>
      match post S api_key chunk w with
      | (Some r, w1) => let (rs, w2) := answers api_key chunk k w1 in (r :: rs, w2)
      | (None, w1) => ([], w1)
      end
  end.

End WithService.

Definition default_retry_count : Z := 3.

End Client.

(** ** Lines 101-141: [highlight_pdf]

    PyMuPDF and the temporary file are outside the repository.  What the
    program uses of them: the file takes the bytes, a document opens to its
    pages, a page answers a text search with the rectangles of the
    occurrences, takes highlight annotations, and the document is written
    back to bytes.  Each of these calls returns or raises. *)

Record rect := { x0 : Q; y0 : Q; x1 : Q; y1 : Q }.

(** A highlight annotation: its rectangle and its stroke colour. *)
Record annot := { region : rect; stroke : Q * Q * Q }.

Record page (Content : Type) := {
  content : Content;
  annots : list annot   (* highlight annotations added since the document was opened *)
}.

Arguments content {Content} p.
Arguments annots {Content} p.

Record PdfLib := {
  (** [PyPDF2.PdfReader(f).pages[i].extract_text()], page by page *)
  page_texts : bytes -> option (list string);
  (** lines 104-106, [NamedTemporaryFile] and [write]: [false] when they
      raise *)
  tmp_write : bytes -> bool;
  Content : Type;
  (** [fitz.open(path)] *)
  fitz_open : bytes -> option (list Content);
  (** [page.search_for(phrase)]; [None] when it raises *)
  search_for : Content -> string -> option (list rect);
  (** lines 123-125, [add_highlight_annot], [set_colors] and [update] on a
      rectangle of a page: [false] when one of them raises *)
  annotates : Content -> rect -> bool;
  (** [doc.save(buffer)], [doc.close()], then [buffer.getvalue()] *)
  save : list (page Content) -> option bytes
}.

Module Highlighter.

Definition yellow : Q * Q * Q := (inject_Z 1, inject_Z 1, inject_Z 0).

(** The annotation of lines 123-124 on the rectangle [inst]. *)
Definition highlight (inst : rect) : annot :=
  {| region := inst; stroke := yellow |}.

(** A [for] loop whose body may raise: the first failure ends it. *)
Fixpoint each {A B} (f : B -> A -> option B) (l : list A) (b : B) : option B :=
  match l with
  | [] => Some b
  | a :: l' =>
      match f b a with
      | Some b' => each f l' b'
      | None => None
      end
  end.

Section WithLib.

Variable L : PdfLib.

(** Lines 123-125. *)
Definition add_highlight_annot (pg : page (Content L)) (inst : rect)
  : option (page (Content L)) :=
  if annotates L (content pg) inst
  then Some {| content := content pg;
               annots := annots pg ++ [highlight inst] |}
  else None.

(** Lines 118-125, one phrase on one page. *)
Definition highlight_phrase (pg : page (Content L)) (phrase : string)
  : option (page (Content L)) :=
  let phrase := strip phrase in
  if (5 <? len phrase)%nat
  then
    match search_for L (content pg) phrase with
    | Some text_instances => each add_highlight_annot text_instances pg
    | None => None
    end
  else Some pg.

(** Lines 117-125, all phrases on one page. *)
Definition highlight_page (key_phrases : list string) (pg : page (Content L))
  : option (page (Content L)) :=
  each highlight_phrase key_phrases pg.

(** Lines 113-125, page after page. *)
Fixpoint highlight_pages (key_phrases : list string) (doc : list (page (Content L)))
  : option (list (page (Content L))) :=
  match doc with
  | [] => Some []
  | pg :: rest =>
      match highlight_page key_phrases pg with
      | Some pg' =>
          match highlight_pages key_phrases rest with
          | Some rest' => Some (pg' :: rest')
          | None => None
          end
      | None => None
      end
  end.

Definition opened (c : Content L) : page (Content L) :=
  {| content := c; annots := [] |}.

(** Lines 110-134, the body of the [try]. *)
Definition annotate_and_save {W} (input_pdf_bytes : bytes) (key_phrases : list string)
  : Prog.t W bytes :=
  doc <- Prog.of_option (fitz_open L input_pdf_bytes) ;;
  pages <- Prog.of_option (highlight_pages key_phrases (map opened doc)) ;;
  Prog.of_option (save L pages).

(** Lines 104-106 come before the [try]: when they raise, the [finally]
    of lines 136-141 does not run. *)
Definition highlight_pdf {W} (input_pdf_bytes : bytes) (key_phrases : list string)
  : Prog.t W bytes :=
  Prog.emit (Tmp_write input_pdf_bytes) ;;
  (if tmp_write L input_pdf_bytes then Prog.ret tt else Prog.raise) ;;
  Prog.try_finally (annotate_and_save input_pdf_bytes key_phrases)
                   (Prog.emit Tmp_unlink).

End WithLib.

Definition min_phrase_length : nat := 6.

End Highlighter.

(** ** What a phrase marks on a page

    The annotations of lines 117-125 in words, to state what
    [highlight_pdf] hands to [doc.save]. *)

Module Marks.

Import Highlighter.

Section WithLib.

Variable L : PdfLib.

(** [marks] is what one phrase adds to a page of content [c]: nothing
    when its trimmed length is below six, otherwise one yellow highlight
    on each rectangle that the search for the trimmed phrase returns. *)
Definition phrase_marks (c : Content L) (phrase : string) (marks : list annot) : Prop :=
  if (min_phrase_length <=? len (strip phrase))%nat
  then exists insts,
         search_for L c (strip phrase) = Some insts
         /\ marks = map (fun inst => {| region := inst; stroke := yellow |}) insts
  else marks = [].

(** [pg] is the page of content [c] with the marks of the phrases, one
    phrase after the other, and nothing else. *)
Definition page_marks (key_phrases : list string) (c : Content L)
  (pg : page (Content L)) : Prop :=
  content pg = c
  /\ exists marks,
       Forall2 (phrase_marks c) key_phrases marks
       /\ annots pg = concat marks.

(** Every call that lines 117-125 make on a page of content [c] returns:
    the search for each phrase of trimmed length six or more, and the
    annotation of each rectangle found. *)
Definition calls_return (key_phrases : list string) (c : Content L) : Prop :=
  forall phrase,
    In phrase key_phrases ->
    (min_phrase_length <= len (strip phrase))%nat ->
    exists insts,
      search_for L c (strip phrase) = Some insts
      /\ forall inst, In inst insts -> annotates L c inst = true.

(** The same as functions, for the loops written in closed form. *)
Definition phrase_returns (c : Content L) (phrase : string) : bool :=
  if (min_phrase_length <=? len (strip phrase))%nat
  then match search_for L c (strip phrase) with
       | Some insts => forallb (annotates L c) insts
       | None => false
       end
  else true.

Definition found (c : Content L) (phrase : string) : list annot :=
  if (min_phrase_length <=? len (strip phrase))%nat
  then match search_for L c (strip phrase) with
       | Some insts => map highlight insts
       | None => []
       end
  else [].

Definition marked (key_phrases : list string) (c : Content L) : page (Content L) :=
  {| content := c; annots := flat_map (found c) key_phrases |}.

Definition saved (pages : list (page (Content L))) : result bytes :=
  match save L pages with
  | Some out => Ok out
  | None => Raised
  end.

End WithLib.

End Marks.

(** ** Lines 143-224: [main], one run of the Streamlit script *)

Module Pipeline.

Definition api_key : string := "YOUR KEY HERE".

Definition confirmation_threshold : nat := 10.

Section WithEnv.

Variable S : Service.
Variable L : PdfLib.

(** Line 158. *)
Definition extract (pdf_bytes : bytes) : Prog.t (World S) string :=
  pages <- Prog.of_option (page_texts L pdf_bytes) ;;
  Prog.ret (Extractor.extract_text_from_pdf pages).

(** Lines 193-206: the chunks from index [i] on, [total] being
    [len(chunks)]. *)
Fixpoint process_chunks (total i : nat) (chunks : list string)
  (all_key_phrases : list string) : Prog.t (World S) (list string) :=
  match chunks with
  | [] => Prog.ret all_key_phrases
  | chunk :: rest =>
      Prog.emit (Progress (i + 1) total) ;;
      Prog.emit (Info_processing (i + 1) total) ;;
      key_phrases <- Client.get_key_phrases_for_chunk S chunk api_key Client.default_retry_count ;;
      (if (Z.of_nat i <? Z.of_nat total - 1)%Z
       then Prog.emit (Sleep (inject_Z 1))
       else Prog.ret tt) ;;
      process_chunks total (i + 1) rest (all_key_phrases ++ key_phrases)%list
  end.

(** Lines 185-219. *)
Definition run (pdf_bytes : bytes) (chunks : list string) : Prog.t (World S) unit :=
  Prog.emit Write_processing ;;
  Prog.emit Progress_start ;;
  all_key_phrases <- process_chunks (length chunks) 0 chunks [] ;;
  highlighted_pdf <- Highlighter.highlight_pdf L pdf_bytes all_key_phrases ;;
  Prog.emit Success ;;
  Prog.emit (Download highlighted_pdf).

(** Lines 181-183: [st.button] answers whether the button was pressed. *)
Definition confirm (button : bool) (chunks : list string) : Prog.t (World S) bool :=
  if (confirmation_threshold <? length chunks)%nat
  then Prog.emit Button_shown ;; Prog.ret button
  else Prog.ret true.

(** What lines 162-178 show for a text and its chunks. *)
Definition announced (text : string) (chunks : list string) : list event :=
  ([Info_extracted (len text); Text_shown text; Info_split (length chunks)]
   ++ if (5 <? length chunks)%nat then [Warn_large (length chunks)] else [])%list.

(** What line 222 adds when the body raised. *)
Definition reported {A} (r : result A) : list event :=
  match r with
  | Ok _ => []
  | Raised => [Error_exception]
  end.

(** Lines 152-219, the body of the [try]. *)
Definition body (pdf_bytes : bytes) (button : bool) : Prog.t (World S) unit :=
  text <- extract pdf_bytes ;;
  Prog.emit (Info_extracted (len text)) ;;
  Prog.emit (Text_shown text) ;;
  let chunks := Chunker.chunk_text text 3000 in
  Prog.emit (Info_split (length chunks)) ;;
  (if (5 <? length chunks)%nat
   then Prog.emit (Warn_large (length chunks))
   else Prog.ret tt) ;;
  proceed <- confirm button chunks ;;
  if proceed then run pdf_bytes chunks else Prog.ret tt.

Definition main (uploaded_file : option bytes) (button : bool) : Prog.t (World S) unit :=
  Prog.emit Title ;;
  Prog.emit File_uploader ;;
  match uploaded_file with
  | Some pdf_bytes =>
      Prog.try_except (body pdf_bytes button) (Prog.emit Error_exception)
  | None => Prog.ret tt
  end.

End WithEnv.
End Pipeline.

(** ** Test doubles

    A scripted phrase service and a small page format in the place of the
    PDF libraries, for running the program on concrete inputs in the
    examples.  The page format is not PDF, and no general statement
    rests on it. *)

Module Fixture.

(** A service that answers from a script, one response per request, and
    refuses the connection once the script is used up. *)
Definition scripted : Service :=
  {| World := list response;
     post := fun _ _ w =>
       match w with
       | r :: w' => (Some r, w')
       | [] => (None, [])
       end |}.

Definition chat_completion (content : string) : response :=
  {| status_code := 200;
     json := Some (JObj [("choices",
               JArr [JObj [("message", JObj [("role", JStr "assistant");
                                             ("content", JStr content)])]])]);
     text := "" |}.

Definition rate_limited (message : string) : response :=
  {| status_code := 429;
     json := Some (JObj [("error", JObj [("message", JStr message)])]);
     text := "" |}.

Definition server_error : response :=
  {| status_code := 500; json := None; text := "Internal Server Error" |}.

(** A page format: the bytes of a file are the texts of its pages, one
    form feed between two pages.  The writer ends the file with an end
    marker and one tag byte per annotation. *)
Definition form_feed : string := String "012"%char EmptyString.

Definition decode_pages (data : bytes) : list string :=
  split form_feed (string_of_list_byte data).

(** The occurrences of [phrase] in [s], left to right; the rectangle of an
    occurrence spans its columns on one line. *)
Fixpoint occurrences (phrase s : string) (column : nat) : list rect :=
  match s with
  | EmptyString => []
  | String _ s' =>
      (if prefix phrase s
       then [{| x0 := inject_Z (Z.of_nat column); y0 := inject_Z 0;
                x1 := inject_Z (Z.of_nat (column + len phrase)); y1 := inject_Z 1 |}]
       else []) ++ occurrences phrase s' (column + 1)
  end.

Definition end_marker : Byte.byte := Byte.x1a.

Definition annot_tag : Byte.byte := Byte.x01.

Definition write_pages (doc : list (page string)) : bytes :=
  (list_byte_of_string (join form_feed (map content doc))
   ++ end_marker :: map (fun _ => annot_tag) (flat_map annots doc))%list.

Definition paged : PdfLib :=
  {| page_texts := fun data => Some (decode_pages data);
     tmp_write := fun _ => true;
     Content := string;
     fitz_open := fun data => Some (decode_pages data);
     search_for := fun c phrase => Some (occurrences phrase c 0);
     annotates := fun _ _ => true;
     save := fun doc => Some (write_pages doc) |}.

Fixpoint replicate (n : nat) (s : string) : string :=
  match n with
  | O => EmptyString
  | Datatypes.S k => s ++ replicate k s
  end.

(** A file of [n] pages, each one long line of [width] letters. *)
Definition long_pages (n width : nat) : bytes :=
  list_byte_of_string (join form_feed (repeat (replicate width "a") n)).

End Fixture.

(** ** Runs of paragraphs

    The loop of [chunk_text] seen on lists of paragraphs instead of joined
    strings: the runs of paragraphs behind the chunks.  Used to state how
    the chunks are made up. *)

Module Grouping.

Record gstate := { closed_groups : list (list string); open_group : list string }.

Definition ginit : gstate := {| closed_groups := []; open_group := [] |}.

Definition fresh (p : string) : list string := if truthy p then [p] else [].

Definition gstep (max_chunk_size : Z) (gs : gstate) (paragraph : string) : gstate :=
  match open_group gs with
  | [] => {| closed_groups := closed_groups gs; open_group := fresh paragraph |}
  | _ :: _ =>
      if (max_chunk_size
          <? Z.of_nat (len (join blank (open_group gs)) + len paragraph))%Z
      then {| closed_groups := closed_groups gs ++ [open_group gs];
              open_group := fresh paragraph |}
      else {| closed_groups := closed_groups gs;
              open_group := open_group gs ++ [paragraph] |}
  end.

Definition gfinish (gs : gstate) : list (list string) :=
  match open_group gs with
  | [] => closed_groups gs
  | _ :: _ => closed_groups gs ++ [open_group gs]
  end.

Definition groups (max_chunk_size : Z) (paragraphs : list string) : list (list string) :=
  gfinish (fold_left (gstep max_chunk_size) paragraphs ginit).

(** The run [g] was closed because the first paragraph of [g'] did not fit. *)
Definition full (max_chunk_size : Z) (g g' : list string) : Prop :=
  (max_chunk_size < Z.of_nat (len (join blank g) + len (hd "" g')))%Z.

(** The state of the loop of [chunk_text] is the join of the runs. *)
Definition sim (gs : gstate) (st : Chunker.state) : Prop :=
  Chunker.chunks st = map (join blank) (closed_groups gs)
  /\ Chunker.current_chunk st = join blank (open_group gs)
  /\ (open_group gs = [] \/ hd "" (open_group gs) <> "").

(** Every run starts with a non-empty paragraph. *)
Definition heads_ok (gs : gstate) : Prop :=
  Forall (fun g => hd "" g <> "") (closed_groups gs)
  /\ (open_group gs = [] \/ hd "" (open_group gs) <> "").

(** Each run in the list was closed because of its right neighbour. *)
Definition chain (max_chunk_size : Z) (l : list (list string)) : Prop :=
  forall i g g',
    nth_error l i = Some g -> nth_error l (Datatypes.S i) = Some g' ->
    full max_chunk_size g g'.

Definition greedy (max_chunk_size : Z) (gs : gstate) : Prop :=
  chain max_chunk_size (closed_groups gs)
  /\ forall c,
       nth_error (closed_groups gs) (pred (length (closed_groups gs))) = Some c ->
       full max_chunk_size c (open_group gs).

(** Every paragraph of the run after the first was added while the chunk
    so far and the paragraph together were within the maximum. *)
Definition fits (max_chunk_size : Z) (g : list string) : Prop :=
  forall a p b,
    g = (a ++ p :: b)%list -> a <> [] ->
    (Z.of_nat (len (join blank a) + len p) <= max_chunk_size)%Z.

Definition all_fit (max_chunk_size : Z) (gs : gstate) : Prop :=
  Forall (fits max_chunk_size) (closed_groups gs)
  /\ fits max_chunk_size (open_group gs).

End Grouping.

(** ** Wait hints

    The pattern of line 83 and the payload of line 82 in words, to state
    what the client reads from a rate-limit answer. *)

Module WaitHint.

Fixpoint all_digits (s : string) : bool :=
  match s with
  | EmptyString => true
  | String c s' => Client.isdigit c && all_digits s'
  end.

(** At position [k] of [message] stand the words of the pattern, a run of
    one or more digits [whole], a dot, a run of one or more digits [frac]
    and the letter s. *)
Definition hint_at (message : string) (k : nat) (whole frac : string) : Prop :=
  exists before after,
    message = before ++ "try again in " ++ whole ++ "." ++ frac ++ "s" ++ after
    /\ len before = k
    /\ whole <> EmptyString /\ all_digits whole = true
    /\ frac <> EmptyString /\ all_digits frac = true.

(** The leftmost place where the pattern stands. *)
Definition first_hint (message whole frac : string) : Prop :=
  exists k,
    hint_at message k whole frac
    /\ forall k' whole' frac', (k' < k)%nat -> ~ hint_at message k' whole' frac'.

Definition no_hint (message : string) : Prop :=
  forall k whole frac, ~ hint_at message k whole frac.

(** The payload is a JSON object whose member [error] is an object whose
    member [message] is the string [message]. *)
Definition says (r : response) (message : string) : Prop :=
  exists top err,
    json r = Some (JObj top)
    /\ Json.lookup "error" top = Some (JObj err)
    /\ Json.lookup "message" err = Some (JStr message).

(** The wait of lines 79-87: the hinted seconds as a float, plus one, and
    ten seconds when the payload carries no hint. *)
Definition wait_rule (r : response) : Prop :=
  (forall message whole frac,
      says r message -> first_hint message whole frac ->
      Client.wait_time r
      = Double.add (Double.round (Client.decimal whole frac)) (Double.of_Z 1))
  /\ ((forall message, says r message -> no_hint message) ->
      Client.wait_time r = Double.of_Z 10).

(** [time.sleep] returns for the wait of this answer. *)
Definition can_wait (r : response) : Prop :=
  Clock.sleep_raises (Client.wait_time r) = false.

(** What one rate-limited attempt leaves in the trace when its sleep
    returns. *)
Definition rate_limit_trace (api_key chunk : string) (r : response) : list event :=
  [Post api_key chunk; Warn_rate_limit (Client.wait_time r);
   Sleep (Clock.seconds (Client.wait_time r))].

End WaitHint.

(** ** Traces of the driver *)

Module Trace.

Definition is_pause (e : event) : bool :=
  match e with
  | Sleep _ => true
  | _ => false
  end.

Definition lines (content : string) : list string := split newline (strip content).

(** The service answers each chunk in turn, at the first request, with
    status 200 and a well-formed body of the given content. *)
Fixpoint served (S : Service) (chunks contents : list string) (w w' : World S) : Prop :=
  match chunks, contents with
  | [], [] => w' = w
  | chunk :: chunks', content :: contents' =>
      exists r w1,
        post S Pipeline.api_key chunk w = (Some r, w1)
        /\ status_code r = 200%Z
        /\ Client.content_of r = Some content
        /\ served S chunks' contents' w1 w'
  | _, _ => False
  end.

(** What the loop of lines 193-206 shows and does when every chunk is
    answered at once. *)
Fixpoint success_trace (total i : nat) (chunks : list string) : list event :=
  match chunks with
  | [] => []
  | chunk :: rest =>
      ([Progress (i + 1) total; Info_processing (i + 1) total; Post Pipeline.api_key chunk]
       ++ (if (Z.of_nat i <? Z.of_nat total - 1)%Z then [Sleep (inject_Z 1)] else [])
       ++ success_trace total (i + 1) rest)%list
  end.

(** The events that end a run: lines 213, 214-219 and 222-224. *)
Definition is_outcome (e : event) : bool :=
  match e with
  | Success | Download _ | Error_exception => true
  | _ => false
  end.

End Trace.

(** * Properties *)

(** ** Strings *)

Module PyStrFacts.

Lemma append_empty_r (s : string) : s ++ "" = s.
Proof. induction s as [|c s IH]; simpl; [reflexivity | now rewrite IH]. Qed.

Lemma append_assoc (a b c : string) : (a ++ b) ++ c = a ++ (b ++ c).
Proof. induction a as [|x a IH]; simpl; [reflexivity | now rewrite IH]. Qed.

Lemma len_append (a b : string) : len (a ++ b) = len a + len b.
Proof. unfold len. induction a as [|x a IH]; simpl; [reflexivity | now rewrite IH]. Qed.

Lemma len_blank : len blank = 2.
Proof. reflexivity. Qed.

Lemma truthy_true (s : string) : truthy s = true <-> s <> "".
Proof.
  unfold truthy. rewrite negb_true_iff. apply String.eqb_neq.
Qed.

Lemma truthy_false (s : string) : truthy s = false <-> s = "".
Proof.
  unfold truthy. rewrite negb_false_iff. apply String.eqb_eq.
Qed.

Lemma drop_0 (s : string) : drop 0 s = s.
Proof. reflexivity. Qed.

Lemma drop_empty (n : nat) : drop n "" = "".
Proof. now destruct n. Qed.

(** A prefix can be cut off and put back. *)
Lemma prefix_drop (p s : string) :
  prefix p s = true -> s = p ++ drop (len p) s.
Proof.
  revert s. induction p as [|a p IH]; intros s H.
  - reflexivity.
  - destruct s as [|b s]; simpl in H; [discriminate|].
    destruct (ascii_dec a b) as [->|]; [|discriminate].
    simpl. f_equal. now apply IH.
Qed.

Lemma split_from_not_nil (sep s : string) (skip : nat) :
  split_from sep s skip <> [].
Proof.
  revert skip. induction s as [|c s IH]; intros skip; cbn [split_from];
    [discriminate|].
  destruct skip as [|k]; [|apply IH].
  destruct (prefix sep (String c s)); [discriminate|].
  destruct (split_from sep s 0); discriminate.
Qed.

Lemma join_cons (sep x : string) (l : list string) :
  l <> [] -> join sep (x :: l) = x ++ sep ++ join sep l.
Proof. destruct l; [congruence | reflexivity]. Qed.

Lemma join_cons_char (sep : string) (c : ascii) (p : string) (l : list string) :
  join sep (String c p :: l) = String c (join sep (p :: l)).
Proof. destruct l; reflexivity. Qed.

(** Joining what [split] returns gives the text back, from any point of
    the scan on. *)
Lemma join_split_from (sep s : string) (skip : nat) :
  sep <> "" -> join sep (split_from sep s skip) = drop skip s.
Proof.
  intros Hsep. revert skip.
  induction s as [|c s IH]; intros skip.
  - simpl. now rewrite drop_empty.
  - destruct skip as [|k]; [|cbn [split_from drop]; apply IH].
    cbn [split_from]. destruct (prefix sep (String c s)) eqn:P.
    + rewrite join_cons by apply split_from_not_nil.
      rewrite IH. simpl.
      destruct sep as [|a sep']; [congruence|].
      apply prefix_drop in P. simpl in P. injection P as -> P.
      simpl. rewrite Nat.sub_0_r. now f_equal.
    + destruct (split_from sep s 0) as [|p ps] eqn:E;
        [now apply split_from_not_nil in E|].
      rewrite join_cons_char, <- E, IH. now rewrite drop_0.
Qed.

Theorem join_split (sep s : string) :
  sep <> "" -> join sep (split sep s) = s.
Proof.
  intros H. unfold split. rewrite join_split_from by exact H. apply drop_0.
Qed.

Lemma split_not_nil (sep s : string) : split sep s <> [].
Proof. apply split_from_not_nil. Qed.

(** Joining is unchanged when two neighbours are glued with the separator. *)
Lemma join_glue (sep a b : string) (l r : list string) :
  join sep (l ++ (a ++ sep ++ b) :: r) = join sep (l ++ a :: b :: r).
Proof.
  induction l as [|x l IH].
  - simpl app. destruct r as [|y r]; [reflexivity|].
    rewrite !join_cons by discriminate.
    now rewrite !append_assoc.
  - simpl app. rewrite !join_cons by (destruct l; discriminate).
    now rewrite IH.
Qed.

End PyStrFacts.

Import PyStrFacts.

(** ** The text extractor *)

Module ExtractorFacts.

Import Extractor.

Lemma extract_fold (pages : list string) (acc : string) :
  fold_left (fun text page_text => text ++ (page_text ++ blank)) pages acc
  = acc ++ extract_text_from_pdf pages.
Proof.
  unfold extract_text_from_pdf. revert acc.
  induction pages as [|p pages IH]; intros acc; simpl.
  - now rewrite append_empty_r.
  - rewrite IH. rewrite (IH (p ++ blank)). now rewrite !append_assoc.
Qed.

Lemma extract_cons (p : string) (pages : list string) :
  extract_text_from_pdf (p :: pages) = p ++ blank ++ extract_text_from_pdf pages.
Proof.
  unfold extract_text_from_pdf at 1. simpl. rewrite extract_fold.
  now rewrite append_assoc.
Qed.

(** C5, as the program has it: the text is every page's text followed by
    the blank-line separator, in page order; so the pages joined by the
    separator, and one more separator after the last page.  No page gives
    the empty text. *)
Theorem extract_text_is_terminated_pages (pages : list string) :
  extract_text_from_pdf pages
  = match pages with
    | [] => ""
    | _ :: _ => join blank pages ++ blank
    end.
Proof.
  induction pages as [|p pages IH]; [reflexivity|].
  rewrite extract_cons, IH.
  destruct pages as [|q pages]; [reflexivity|].
  rewrite (join_cons blank p) by discriminate. now rewrite !append_assoc.
Qed.

(** C5 as stated fails: one page gives its text and a separator, not its
    text alone. *)
Lemma extract_text_one_page_not_joined :
  extract_text_from_pdf ["a"] <> join blank ["a"].
Proof. intros H. vm_compute in H. discriminate H. Qed.

End ExtractorFacts.

(** ** The chunker *)

Module ChunkerFacts.

Import Chunker.

Section Loop.

Variable max_chunk_size : Z.

(** The three branches of the loop body. *)
Lemma step_cases (st : state) (paragraph : string) :
  (current_chunk st <> ""
   /\ (max_chunk_size < Z.of_nat (len (current_chunk st) + len paragraph))%Z
   /\ step max_chunk_size st paragraph
      = {| chunks := (chunks st ++ [current_chunk st])%list; current_chunk := paragraph |})
  \/ (current_chunk st <> ""
      /\ (Z.of_nat (len (current_chunk st) + len paragraph) <= max_chunk_size)%Z
      /\ step max_chunk_size st paragraph
         = {| chunks := chunks st;
              current_chunk := current_chunk st ++ blank ++ paragraph |})
  \/ (current_chunk st = ""
      /\ step max_chunk_size st paragraph
         = {| chunks := chunks st; current_chunk := paragraph |}).
Proof.
  unfold step.
  destruct (truthy (current_chunk st)) eqn:T.
  - apply truthy_true in T.
    destruct (Z.ltb_spec max_chunk_size
                (Z.of_nat (len (current_chunk st) + len paragraph))); cbn [andb].
    + left. auto.
    + right; left. auto.
  - apply truthy_false in T. rewrite andb_false_r. right; right. auto.
Qed.

Lemma finish_cases (st : state) :
  (current_chunk st <> "" /\ finish st = (chunks st ++ [current_chunk st])%list)
  \/ (current_chunk st = "" /\ finish st = chunks st).
Proof.
  unfold finish. destruct (truthy (current_chunk st)) eqn:T.
  - left. now apply truthy_true in T.
  - right. now apply truthy_false in T.
Qed.

(** *** No empty chunk *)

Lemma step_chunks_nonempty (st : state) (paragraph : string) :
  Forall (fun c => c <> "") (chunks st) ->
  Forall (fun c => c <> "") (chunks (step max_chunk_size st paragraph)).
Proof.
  intros H.
  destruct (step_cases st paragraph) as [(N & _ & ->) | [(_ & _ & ->) | (_ & ->)]];
    cbn [chunks]; auto.
  apply Forall_app. split; auto.
Qed.

Lemma run_chunks_nonempty (paragraphs : list string) (st : state) :
  Forall (fun c => c <> "") (chunks st) ->
  Forall (fun c => c <> "") (chunks (fold_left (step max_chunk_size) paragraphs st)).
Proof.
  revert st. induction paragraphs as [|p ps IH]; intros st H; [exact H|].
  apply IH, step_chunks_nonempty, H.
Qed.

(** *** Joining the chunks, when no paragraph is empty *)

Lemma run_join (paragraphs : list string) (st : state) :
  Forall (fun p => p <> "") paragraphs ->
  current_chunk st <> "" ->
  join blank (finish (fold_left (step max_chunk_size) paragraphs st))
  = join blank (chunks st ++ current_chunk st :: paragraphs)%list.
Proof.
  revert st. induction paragraphs as [|p ps IH]; intros st Hps Hcur.
  - destruct (finish_cases st) as [(_ & E) | (E & _)]; [|contradiction].
    cbn [fold_left]. now rewrite E.
  - inversion Hps as [|? ? Hp Hps']; subst.
    cbn [fold_left].
    destruct (step_cases st p) as [(_ & _ & E) | [(_ & _ & E) | (E & _)]];
      [| |contradiction]; rewrite E.
    + rewrite IH by assumption. cbn [chunks current_chunk].
      now rewrite <- app_assoc.
    + rewrite IH; cbn [chunks current_chunk]; [apply join_glue|assumption|].
      destruct (current_chunk st); [contradiction|discriminate].
Qed.

(** *** The size of a chunk *)

Lemma step_within (all : list string) (st : state) (paragraph : string) :
  In paragraph all ->
  Forall (within max_chunk_size all) (chunks st) ->
  current_chunk st = "" \/ within max_chunk_size all (current_chunk st) ->
  Forall (within max_chunk_size all) (chunks (step max_chunk_size st paragraph))
  /\ within max_chunk_size all (current_chunk (step max_chunk_size st paragraph)).
Proof.
  intros Hin Hch Hcur.
  destruct (step_cases st paragraph) as [(N & _ & ->) | [(N & B & ->) | (_ & ->)]];
    cbn [chunks current_chunk].
  - split; [|now left].
    apply Forall_app. split; [assumption|].
    constructor; [|constructor]. destruct Hcur; [contradiction|assumption].
  - split; [assumption|]. right.
    rewrite !len_append, len_blank. lia.
  - split; [assumption|now left].
Qed.

Lemma run_within (all paragraphs : list string) (st : state) :
  incl paragraphs all ->
  Forall (within max_chunk_size all) (chunks st) ->
  current_chunk st = "" \/ within max_chunk_size all (current_chunk st) ->
  Forall (within max_chunk_size all)
         (finish (fold_left (step max_chunk_size) paragraphs st)).
Proof.
  revert st. induction paragraphs as [|p ps IH]; intros st Hincl Hch Hcur.
  - cbn [fold_left].
    destruct (finish_cases st) as [(N & ->) | (_ & ->)]; [|assumption].
    apply Forall_app. split; [assumption|].
    constructor; [|constructor]. destruct Hcur; [contradiction|assumption].
  - cbn [fold_left].
    destruct (step_within all st p) as [H1 H2]; auto.
    + apply Hincl. now left.
    + apply IH; auto. intros x Hx. apply Hincl. now right.
Qed.

End Loop.

(** What the size test of line 29 guarantees: a chunk made of several
    paragraphs can be up to two characters longer than the maximum, the
    separator that line 34 adds without counting it. *)
Lemma chunk_text_soft_bound (text : string) (max_chunk_size : Z) :
  Forall (fun c => In c (split blank text)
                   \/ (Z.of_nat (len c) <= max_chunk_size + 2)%Z)
         (chunk_text text max_chunk_size).
Proof.
  unfold chunk_text.
  apply (run_within max_chunk_size (split blank text)).
  - apply incl_refl.
  - constructor.
  - now left.
Qed.

(** C10: the chunker never emits an empty chunk. *)
Theorem chunk_text_no_empty_chunk (text : string) (max_chunk_size : Z) :
  Forall (fun c => c <> "") (chunk_text text max_chunk_size).
Proof.
  unfold chunk_text.
  set (st := fold_left (step max_chunk_size) (split blank text) init).
  assert (H : Forall (fun c => c <> "") (chunks st))
    by (apply run_chunks_nonempty; constructor).
  destruct (finish_cases st) as [(N & ->) | (_ & ->)]; [|assumption].
  apply Forall_app. split; [assumption|]. constructor; [assumption|constructor].
Qed.

(** When no paragraph of the text is empty, the chunks joined by the
    separator are the text. *)
Lemma join_chunks_without_blank (text : string) (max_chunk_size : Z) :
  Forall (fun p => p <> "") (split blank text) ->
  join blank (chunk_text text max_chunk_size) = text.
Proof.
  intros H. unfold chunk_text.
  destruct (split blank text) as [|p ps] eqn:E;
    [now apply split_not_nil in E|].
  inversion H as [|? ? Hp Hps]; subst.
  cbn [fold_left].
  destruct (step_cases max_chunk_size init p)
    as [(N & _) | [(N & _) | (_ & ->)]]; try (now elim N).
  rewrite run_join; cbn [chunks current_chunk app]; try assumption.
  rewrite <- E. apply join_split. discriminate.
Qed.

(** C1 as stated fails: a blank paragraph that arrives while no chunk is
    open is dropped, and its separator with it. *)
Lemma chunk_text_join_drops_blank :
  join blank (chunk_text (blank ++ "a") 3000) <> blank ++ "a".
Proof. intros H. vm_compute in H. discriminate H. Qed.

(** C2 fails at a chunk of two paragraphs: the chunk of "ab", blank
    line, "c" with maximum 3 is five characters long and is no single
    paragraph. *)
Theorem chunk_text_exceeds_max :
  let text := "ab" ++ blank ++ "c" in
  chunk_text text 3 = [text]
  /\ len text = 5
  /\ split blank text = ["ab"; "c"]
  /\ ~ Forall (fun c => (Z.of_nat (len c) <= 3)%Z
                        \/ (In c (split blank text) /\ (3 < Z.of_nat (len c))%Z))
              (chunk_text text 3).
Proof.
  cbv zeta. repeat split; try reflexivity.
  intros H. vm_compute in H. inversion H as [|? ? [L | (I & _)] _]; subst.
  - vm_compute in L. now apply L.
  - destruct I as [I | [I | []]]; discriminate I.
Qed.

End ChunkerFacts.

(** ** Paragraphs through the chunker *)

Module ParagraphFacts.

Import Chunker ChunkerFacts.

(** The separator at the front of a string: two line feeds. *)
Lemma prefix_blank_cons (c : ascii) (x : string) :
  prefix blank (String c x) = Ascii.eqb c nl && starts_nl x.
Proof.
  unfold blank. cbn [prefix].
  destruct (ascii_dec nl c) as [<-|N].
  - rewrite Ascii.eqb_refl. destruct x as [|d y]; [reflexivity|].
    cbn [starts_nl andb prefix]. destruct (ascii_dec nl d) as [<-|N].
    + rewrite Ascii.eqb_refl. now destruct y.
    + destruct (Ascii.eqb_spec d nl) as [->|_]; [now elim N|reflexivity].
  - destruct (Ascii.eqb_spec c nl) as [->|_]; [now elim N|reflexivity].
Qed.

(** One step of the scan of [split] for the blank-line separator. *)
Lemma split_blank_cons (c : ascii) (s : string) :
  split blank (String c s)
  = if prefix blank (String c s)
    then "" :: split blank (drop 1 s)
    else match split blank s with
         | p :: ps => String c p :: ps
         | [] => [String c ""]
         end.
Proof.
  unfold split. cbn [split_from].
  destruct (prefix blank (String c s)); [|reflexivity].
  f_equal. now destruct s.
Qed.

(** A string without separator is its own only paragraph. *)
Lemma split_plain (s : string) : has_blank s = false -> split blank s = [s].
Proof.
  induction s as [|c s IH]; [reflexivity|].
  cbn [has_blank]. intros H. apply orb_false_iff in H as [P H].
  rewrite split_blank_cons, P, (IH H). reflexivity.
Qed.

Lemma closed_cons (c : ascii) (p : string) :
  closed (String c p) = true ->
  closed p = true /\ forall x, prefix blank (String c (p ++ blank ++ x)) = false.
Proof.
  unfold closed. cbn [has_blank]. rewrite negb_orb, prefix_blank_cons.
  intros H. apply andb_true_iff in H as [H E].
  apply andb_true_iff in H as [P B].
  destruct p as [|d p].
  - split; [reflexivity|]. intros x. rewrite prefix_blank_cons.
    cbn in E |- *. now destruct (Ascii.eqb c nl).
  - split.
    + rewrite B. exact E.
    + intros x. rewrite prefix_blank_cons. cbn [append starts_nl] in *.
      now apply negb_true_iff in P.
Qed.

(** A closed string in front of a separator is cut off as one paragraph. *)
Lemma split_closed (p rest : string) :
  closed p = true -> split blank (p ++ blank ++ rest) = p :: split blank rest.
Proof.
  induction p as [|c p IH]; intros H.
  - change ("" ++ blank ++ rest) with (String nl (String nl rest)).
    now rewrite split_blank_cons, prefix_blank_cons.
  - destruct (closed_cons c p H) as [Hp Hx].
    cbn [append]. rewrite split_blank_cons, Hx, (IH Hp). reflexivity.
Qed.

Lemma closed_plain (p : string) : closed p = true -> has_blank p = false.
Proof.
  unfold closed. intros H. apply andb_true_iff in H as [H _].
  now apply negb_true_iff in H.
Qed.

Lemma closed_push (c : ascii) (q x : string) :
  closed q = true ->
  prefix blank (String c (q ++ blank ++ x)) = false ->
  closed (String c q) = true.
Proof.
  unfold closed. intros H P.
  apply andb_true_iff in H as [B E].
  apply negb_true_iff in B. apply negb_true_iff in E.
  rewrite prefix_blank_cons in P.
  cbn [has_blank]. rewrite prefix_blank_cons, B, orb_false_r.
  destruct q as [|d q].
  - cbn in P |- *. rewrite andb_true_r in P. rewrite andb_false_r.
    unfold ends_nl. cbn. now rewrite P.
  - cbn [append starts_nl] in P |- *. rewrite P.
    change (ends_nl (String c (String d q))) with (ends_nl (String d q)).
    now rewrite E.
Qed.

(** The paragraphs of a text: all but the last are closed, the last holds
    no separator.  The second half serves the step over a separator. *)
Lemma split_blank_shape (s : string) :
  group_ok (split blank s) /\ group_ok (split blank (drop 1 s)).
Proof.
  induction s as [|c s [IH0 IH1]].
  - split; exists [], ""; repeat split; constructor.
  - split; [|exact IH0].
    rewrite split_blank_cons.
    destruct (prefix blank (String c s)) eqn:P.
    + destruct IH1 as (init & last & -> & Hi & Hl).
      exists ("" :: init), last. repeat split; [|assumption].
      constructor; [reflexivity|assumption].
    + destruct IH0 as (init & last & E & Hi & Hl).
      pose proof (join_split blank s ltac:(discriminate)) as J.
      rewrite E in J. rewrite E. clear E.
      destruct init as [|q init]; cbn [app] in *.
      * exists [], (String c last). repeat split; [constructor|].
        cbn [has_blank]. cbn in J. rewrite <- J in P. now rewrite P, Hl.
      * apply Forall_cons_iff in Hi as [Hq Hi'].
        exists (String c q :: init), last. repeat split; [|assumption].
        constructor; [|assumption].
        rewrite join_cons in J by (destruct init; discriminate).
        rewrite <- J in P. eapply closed_push; eassumption.
Qed.

(** [split] undoes [join] on such a run of paragraphs. *)
Lemma split_join_group (g : list string) :
  group_ok g -> split blank (join blank g) = g.
Proof.
  intros (init & last & -> & Hi & Hl).
  induction init as [|p init IH]; cbn [app].
  - now apply split_plain.
  - apply Forall_cons_iff in Hi as [Hp Hi'].
    rewrite join_cons by (destruct init; discriminate).
    rewrite split_closed by assumption. now rewrite IH.
Qed.

Lemma join_snoc (sep p : string) (g : list string) :
  g <> [] -> join sep (g ++ [p]) = join sep g ++ sep ++ p.
Proof.
  induction g as [|x g IH]; [congruence|]. intros _.
  destruct g as [|y g]; [reflexivity|].
  cbn [app]. rewrite (join_cons sep x) by discriminate.
  change (y :: g ++ [p])%list with ((y :: g) ++ [p])%list.
  rewrite IH by discriminate.
  rewrite (join_cons sep x) by discriminate.
  now rewrite !append_assoc.
Qed.

Lemma closed_group_ok (g : list string) :
  Forall (fun p => closed p = true) g -> g <> [] -> group_ok g.
Proof.
  intros H N. destruct (exists_last N) as (init & last & ->).
  apply Forall_app in H as [Hi Hl].
  exists init, last. repeat split; [assumption|].
  apply closed_plain. now inversion Hl.
Qed.

Lemma single_group_ok (p : string) : has_blank p = false -> group_ok [p].
Proof. intros H. exists [], p. repeat split; [constructor|assumption]. Qed.

Section Groups.

Variable max_chunk_size : Z.

(** One paragraph through the loop body: it joins the open run, opens a
    new run, or, when it is empty and no chunk is open, is left out. *)
Lemma step_tracks (st : state) (groups : list (list string)) (g : list string)
  (p : string) :
  tracks st groups g ->
  Forall group_ok groups ->
  Forall (fun q => closed q = true) g ->
  has_blank p = false ->
  exists groups' g',
    tracks (step max_chunk_size st p) groups' g'
    /\ Forall group_ok groups'
    /\ (g' = [] \/ group_ok g')
    /\ (closed p = true -> Forall (fun q => closed q = true) g')
    /\ filter truthy (concat groups' ++ g')
       = (filter truthy (concat groups ++ g) ++ filter truthy [p])%list.
Proof.
  intros [Hch Hcur] Hok Hg Hp.
  assert (Fresh : forall groups',
    Forall group_ok groups' ->
    map (join blank) groups' = chunks (step max_chunk_size st p) ->
    current_chunk (step max_chunk_size st p) = p ->
    exists groups'' g',
      tracks (step max_chunk_size st p) groups'' g'
      /\ Forall group_ok groups''
      /\ (g' = [] \/ group_ok g')
      /\ (closed p = true -> Forall (fun q => closed q = true) g')
      /\ filter truthy (concat groups'' ++ g')
         = (filter truthy (concat groups') ++ filter truthy [p])%list).
  { intros groups' Hok' Hch' Hcur'.
    exists groups', (if truthy p then [p] else []).
    destruct (truthy p) eqn:T.
    - apply truthy_true in T. repeat split; auto.
      + right. rewrite Hcur'. split; [assumption|reflexivity].
      + right. now apply single_group_ok.
      + rewrite filter_app. cbn [filter].
        apply truthy_true in T. now rewrite T.
    - repeat split; auto.
      + left. rewrite Hcur'. split; [now apply truthy_false|reflexivity].
      + rewrite filter_app. cbn [filter]. now rewrite T. }
  destruct (step_cases max_chunk_size st p)
    as [(N & _ & E) | [(N & _ & E) | (Hz & E)]].
  - destruct Hcur as [[Hz _] | [_ J]]; [contradiction|].
    assert (Ng : g <> []) by (intros ->; now apply N).
    destruct (Fresh (groups ++ [g])%list) as (groups'' & g' & H).
    + apply Forall_app. split; [assumption|].
      constructor; [now apply closed_group_ok|constructor].
    + rewrite E. cbn [chunks]. now rewrite map_app, Hch, J.
    + now rewrite E.
    + exists groups'', g'. rewrite concat_app in H. cbn [concat] in H.
      rewrite app_nil_r in H. exact H.
  - destruct Hcur as [[Hz _] | [_ J]]; [contradiction|].
    assert (Ng : g <> []) by (intros ->; now apply N).
    exists groups, (g ++ [p])%list. repeat split.
    + rewrite E. exact Hch.
    + right. rewrite E. cbn [current_chunk]. split.
      * destruct (current_chunk st); [contradiction|discriminate].
      * rewrite join_snoc by assumption. now rewrite J.
    + assumption.
    + right. exists g, p. repeat split; assumption.
    + intros C. apply Forall_app. split; [assumption|].
      constructor; [assumption|constructor].
    + now rewrite app_assoc, filter_app.
  - destruct Hcur as [[_ ->] | [N _]]; [|contradiction].
    destruct (Fresh groups) as (groups'' & g' & H).
    + assumption.
    + now rewrite E.
    + now rewrite E.
    + exists groups'', g'. now rewrite app_nil_r.
Qed.

Lemma run_tracks (ps : list string) (st : state)
  (groups : list (list string)) (g : list string) :
  tracks st groups g ->
  Forall group_ok groups ->
  Forall (fun q => closed q = true) g ->
  Forall (fun q => closed q = true) ps ->
  exists groups' g',
    tracks (fold_left (step max_chunk_size) ps st) groups' g'
    /\ Forall group_ok groups'
    /\ Forall (fun q => closed q = true) g'
    /\ filter truthy (concat groups' ++ g')
       = (filter truthy (concat groups ++ g) ++ filter truthy ps)%list.
Proof.
  revert st groups g.
  induction ps as [|p ps IH]; intros st groups g T Hok Hg Hps.
  - exists groups, g. now rewrite app_nil_r.
  - apply Forall_cons_iff in Hps as [Hp Hps].
    destruct (step_tracks st groups g p T Hok Hg (closed_plain p Hp))
      as (groups1 & g1 & T1 & Hok1 & _ & Hg1 & F1).
    destruct (IH _ _ _ T1 Hok1 (Hg1 Hp) Hps)
      as (groups2 & g2 & T2 & Hok2 & Hg2 & F2).
    exists groups2, g2.
    split; [exact T2|]. split; [exact Hok2|]. split; [exact Hg2|].
    rewrite F2, F1. cbn [fold_left]. rewrite <- app_assoc. f_equal.
    change (p :: ps) with ([p] ++ ps)%list. now rewrite filter_app.
Qed.

End Groups.

(** Cutting the joined runs again gives their non-empty paragraphs. *)
Lemma resplit_groups (groups : list (list string)) :
  Forall group_ok groups ->
  flat_map (fun c => filter truthy (split blank c)) (map (join blank) groups)
  = filter truthy (concat groups).
Proof.
  induction 1 as [|g groups Hg _ IH]; [reflexivity|].
  cbn [map flat_map concat]. rewrite filter_app, IH.
  now rewrite split_join_group.
Qed.

(** Only empty paragraphs can be lost between the text and its chunks. *)
Lemma chunk_text_keeps_paragraphs (text : string) (max_chunk_size : Z) :
  flat_map (fun c => filter truthy (split blank c)) (chunk_text text max_chunk_size)
  = filter truthy (split blank text).
Proof.
  unfold chunk_text.
  destruct (split_blank_shape text) as [(init & last & -> & Hi & Hl) _].
  rewrite fold_left_app. cbn [fold_left].
  assert (T0 : tracks Chunker.init [] [])
    by (split; [reflexivity|]; left; split; reflexivity).
  destruct (run_tracks max_chunk_size init Chunker.init [] [] T0
              (Forall_nil _) (Forall_nil _) Hi)
    as (groups1 & g1 & T1 & Hok1 & Hg1 & F1).
  destruct (step_tracks max_chunk_size _ groups1 g1 last T1 Hok1 Hg1 Hl)
    as (groups2 & g2 & [Hch Hcur] & Hok2 & Hg2 & _ & F2).
  cbn [concat app filter] in F1. rewrite F1 in F2.
  rewrite filter_app, <- F2.
  set (st := step max_chunk_size _ last) in *.
  destruct (finish_cases st) as [(N & ->) | (Hz & ->)].
  - destruct Hcur as [[Hz _] | [_ J]]; [contradiction|].
    destruct Hg2 as [->|Hg2]; [now elim N|].
    rewrite Hch, J.
    change [join blank g2] with (map (join blank) [g2]).
    rewrite <- map_app, resplit_groups.
    + rewrite concat_app. cbn [concat]. now rewrite app_nil_r.
    + apply Forall_app. split; [assumption|]. now constructor.
  - destruct Hcur as [[_ ->] | [N _]]; [|contradiction].
    rewrite Hch, resplit_groups by assumption. now rewrite app_nil_r.
Qed.

(** C1, as the program has it: for every text and every maximum, the
    chunks, each cut again at its blank lines, hold the non-empty
    paragraphs of the text, all of them, once and in order; and when no
    paragraph of the text is empty (the text is not empty and the separator
    occurs neither at its start, nor at its end, nor twice in a row), the
    chunks joined by the separator are the text. *)
Theorem chunk_text_roundtrip (text : string) (max_chunk_size : Z) :
  flat_map (fun c => filter truthy (split blank c)) (chunk_text text max_chunk_size)
  = filter truthy (split blank text)
  /\ (Forall (fun p => p <> "") (split blank text) ->
      join blank (chunk_text text max_chunk_size) = text).
Proof.
  split.
  - apply chunk_text_keeps_paragraphs.
  - apply join_chunks_without_blank.
Qed.

Lemma chunk_text_roundtrip_witness :
  join blank (chunk_text ("ab" ++ blank ++ "c" ++ blank ++ "defg") 3)
  = "ab" ++ blank ++ "c" ++ blank ++ "defg".
Proof.
  apply (chunk_text_roundtrip ("ab" ++ blank ++ "c" ++ blank ++ "defg") 3).
  vm_compute. repeat constructor; discriminate.
Defined.

End ParagraphFacts.

(** ** Floats *)

Module DoubleFacts.

Import Double.

Lemma nearest_even_floor (a b : Z) : (a / b <= nearest_even a b)%Z.
Proof.
  unfold nearest_even.
  destruct (2 * (a mod b) <? b)%Z; [lia|].
  destruct (b <? 2 * (a mod b))%Z; [lia|].
  destruct (Z.even (a / b)); lia.
Qed.

Lemma pow2_pos (k : Z) : (0 <= k -> 0 < 2 ^ k)%Z.
Proof. intros H. apply Z.pow_pos_nonneg; lia. Qed.

(** The exponent is not above the binary logarithm of [n / d]. *)
Lemma exponent_le (n d : Z) :
  (0 < n)%Z -> (0 < d)%Z -> (0 <= exponent n d)%Z -> (d * 2 ^ exponent n d <= n)%Z.
Proof.
  intros Hn Hd. unfold exponent, ratio.
  set (e := (Z.log2 n - Z.log2 d)%Z).
  destruct (Z.leb_spec 0 e) as [He|He].
  - destruct (Z.leb_spec (d * 2 ^ e) n) as [Hle|Hgt]; [intros _; exact Hle|].
    intros H1.
    destruct (Z.log2_spec n Hn) as [Ln _].
    destruct (Z.log2_spec d Hd) as [_ Ld].
    assert (E : (2 ^ Z.log2 n = 2 ^ (Z.log2 d + 1) * 2 ^ (e - 1))%Z).
    { rewrite <- Z.pow_add_r by (pose proof (Z.log2_nonneg d); lia).
      f_equal. unfold e. lia. }
    pose proof (pow2_pos (e - 1) H1).
    nia.
  - destruct (d <=? n * 2 ^ (- e))%Z; lia.
Qed.

Lemma Qred_le_one (q : Q) : Qle (inject_Z 1) q -> Qle (inject_Z 1) (Qred q).
Proof. intros H. now rewrite Qred_correct. Qed.

(** Rounding does not take a value below one. *)
Lemma round_at_least_one (q : Q) : Qle (inject_Z 1) q -> at_least_one (round q).
Proof.
  destruct q as [n d]. unfold Qle. cbn [Qnum Qden inject_Z]. intros H.
  assert (Hn : (0 < n)%Z) by lia.
  unfold round. cbn [Qnum Qden].
  destruct (Z.leb_spec n 0) as [?|_]; [lia|].
  pose proof (exponent_le n (Z.pos d) Hn (Pos2Z.is_pos d)) as He.
  set (e := exponent n (Z.pos d)) in *.
  set (k := Z.max (e - 52) (-1074)).
  unfold ratio. destruct (Z.leb_spec 0 k) as [Hk|Hk].
  - pose proof (nearest_even_floor n (Z.pos d * 2 ^ k)) as Hm.
    set (m := nearest_even n (Z.pos d * 2 ^ k)) in *.
    destruct (2 ^ 1024 <=? m * 2 ^ k)%Z; cbn [andb at_least_one]; [exact I|].
    apply Qred_le_one. unfold scaled.
    destruct (Z.leb_spec 0 k) as [_|?]; [|lia].
    rewrite <- Zle_Qle.
    assert (Hke : (k <= e)%Z) by lia.
    assert (H0e : (0 <= e)%Z) by lia.
    specialize (He H0e).
    pose proof (Z.pow_le_mono_r 2 k e ltac:(lia) Hke) as Hp.
    pose proof (pow2_pos k Hk) as Hpk.
    assert (Hq : (1 <= n / (Z.pos d * 2 ^ k))%Z).
    { apply Z.div_le_lower_bound; nia. }
    nia.
  - pose proof (nearest_even_floor (n * 2 ^ (- k)) (Z.pos d)) as Hm.
    set (m := nearest_even (n * 2 ^ (- k)) (Z.pos d)) in *.
    cbn [andb at_least_one].
    apply Qred_le_one. unfold scaled.
    destruct (Z.leb_spec 0 k) as [?|_]; [lia|].
    pose proof (pow2_pos (- k) ltac:(lia)) as Hpk.
    unfold Qle. cbn [Qnum Qden inject_Z].
    rewrite Z2Pos.id by exact Hpk.
    assert (Hq : (2 ^ (- k) <= n * 2 ^ (- k) / Z.pos d)%Z).
    { apply Z.div_le_lower_bound; nia. }
    lia.
Qed.

Lemma nearest_even_nonneg (a b : Z) : (0 <= a -> 0 < b -> 0 <= nearest_even a b)%Z.
Proof.
  intros Ha Hb. pose proof (nearest_even_floor a b).
  pose proof (Z.div_pos a b Ha Hb). lia.
Qed.

(** A rounded value is not negative. *)
Lemma round_nonneg (q : Q) :
  match round q with
  | Finite v => Qle (inject_Z 0) v
  | Infinity => True
  end.
Proof.
  destruct q as [n d]. unfold round. cbn [Qnum Qden].
  destruct (Z.leb_spec n 0) as [_|Hn]; [apply Qle_refl|].
  set (k := Z.max (exponent n (Z.pos d) - 52) (-1074)).
  unfold ratio, scaled. destruct (Z.leb_spec 0 k) as [Hk|Hk].
  - pose proof (pow2_pos k Hk) as Hp.
    pose proof (nearest_even_nonneg n (Z.pos d * 2 ^ k) ltac:(lia) ltac:(nia)) as Hm.
    destruct (2 ^ 1024 <=? _)%Z; cbn [andb]; [exact I|].
    rewrite Qred_correct, <- Zle_Qle. nia.
  - pose proof (pow2_pos (- k) ltac:(lia)) as Hp.
    pose proof (nearest_even_nonneg (n * 2 ^ (- k)) (Z.pos d) ltac:(nia) ltac:(lia)) as Hm.
    cbn [andb]. rewrite Qred_correct.
    unfold Qle. cbn [Qnum Qden inject_Z]. lia.
Qed.

(** One more than a float is at least one. *)
Lemma add_one_at_least_one (x : t) :
  match x with Finite v => Qle (inject_Z 0) v | Infinity => True end ->
  at_least_one (add x (of_Z 1)).
Proof.
  destruct x as [v|]; [|intros _; exact I].
  intros Hv. cbn [add of_Z]. apply round_at_least_one.
  apply (Qle_trans _ (Qplus (inject_Z 0) (inject_Z 1))); [discriminate|].
  apply Qplus_le_compat; [exact Hv|apply Qle_refl].
Qed.

End DoubleFacts.

(** ** The pattern of line 83 *)

Module PatternFacts.

Import Client WaitHint.

Lemma span_all_digits (d x : string) :
  all_digits d = true -> stops x = true -> span_digits (d ++ x) = (d, x).
Proof.
  intros D X. induction d as [|c d IH].
  - destruct x as [|y x]; [reflexivity|].
    cbn in *. apply negb_true_iff in X. now rewrite X.
  - cbn in D. apply andb_true_iff in D as [C D].
    cbn. rewrite C, (IH D). reflexivity.
Qed.

(** What [span_digits] splits off is a run of digits. *)
Lemma span_digits_sound (s d r : string) :
  span_digits s = (d, r) -> s = d ++ r /\ all_digits d = true.
Proof.
  revert d r. induction s as [|c s IH]; intros d r E.
  - injection E as <- <-. now split.
  - cbn in E. destruct (isdigit c) eqn:C.
    + destruct (span_digits s) as [d' r'] eqn:E'. injection E as <- <-.
      destruct (IH d' r' eq_refl) as [-> D]. cbn. now rewrite C.
    + injection E as <- <-. now split.
Qed.

Lemma strip_prefix_append (p s : string) : strip_prefix p (p ++ s) = Some s.
Proof.
  induction p as [|a p IH]; [reflexivity|].
  cbn. now rewrite Ascii.eqb_refl.
Qed.

Lemma strip_prefix_sound (p s r : string) : strip_prefix p s = Some r -> s = p ++ r.
Proof.
  revert s. induction p as [|a p IH]; intros s E.
  - now injection E as ->.
  - destruct s as [|b s]; [discriminate|]. cbn in E.
    destruct (Ascii.eqb_spec a b) as [->|]; [|discriminate].
    cbn. now rewrite (IH s E).
Qed.

(** The pattern at the front of a message. *)
Lemma match_here_hint (whole frac rest : string) :
  all_digits whole = true -> whole <> "" ->
  all_digits frac = true -> frac <> "" ->
  match_here ("try again in " ++ whole ++ "." ++ frac ++ "s" ++ rest)
  = Some (whole ++ "." ++ frac).
Proof.
  intros Dw Nw Df Nf. unfold match_here.
  rewrite strip_prefix_append.
  rewrite (span_all_digits whole ("." ++ frac ++ "s" ++ rest) Dw eq_refl).
  destruct whole as [|a whole]; [contradiction|].
  pose proof (span_all_digits frac ("s" ++ rest) Df eq_refl) as Ef.
  cbn [append] in Ef |- *. rewrite Ascii.eqb_refl, Ef.
  destruct frac as [|b frac]; [contradiction|]. reflexivity.
Qed.

(** A match of [match_here] reads the words of the pattern. *)
Lemma match_here_sound (s g : string) :
  match_here s = Some g ->
  exists whole frac rest,
    s = "try again in " ++ whole ++ "." ++ frac ++ "s" ++ rest
    /\ g = whole ++ "." ++ frac
    /\ whole <> "" /\ all_digits whole = true
    /\ frac <> "" /\ all_digits frac = true.
Proof.
  unfold match_here.
  destruct (strip_prefix "try again in " s) as [r|] eqn:P; [|discriminate].
  apply strip_prefix_sound in P.
  destruct (span_digits r) as [whole r1] eqn:Hw.
  apply span_digits_sound in Hw as [Er Dw].
  destruct whole as [|a whole]; [discriminate|].
  destruct r1 as [|c r2]; [discriminate|].
  destruct (Ascii.eqb_spec c ".") as [->|]; [|discriminate].
  destruct (span_digits r2) as [frac r3] eqn:Hf.
  apply span_digits_sound in Hf as [Er2 Df].
  destruct frac as [|b frac]; [discriminate|].
  destruct r3 as [|c' r4]; [discriminate|].
  destruct (Ascii.eqb_spec c' "s") as [->|]; [|discriminate].
  intros H. injection H as <-.
  exists (String a whole), (String b frac), r4.
  repeat split; try discriminate; try assumption.
  rewrite P, Er, Er2. reflexivity.
Qed.

Lemma float_decimal (whole frac : string) :
  all_digits whole = true -> whole <> "" ->
  all_digits frac = true -> frac <> "" ->
  float (whole ++ "." ++ frac) = Some (Double.round (decimal whole frac)).
Proof.
  intros Dw Nw Df Nf. unfold float.
  rewrite (span_all_digits whole ("." ++ frac) Dw eq_refl).
  destruct whole as [|a whole]; [contradiction|].
  cbn [append]. rewrite Ascii.eqb_refl.
  pose proof (span_all_digits frac "" Df eq_refl) as E.
  rewrite append_empty_r in E. rewrite E.
  destruct frac as [|b frac]; [contradiction|]. reflexivity.
Qed.

Lemma drop_append (before s : string) : drop (len before) (before ++ s) = s.
Proof. induction before as [|c before IH]; [reflexivity|exact IH]. Qed.

Lemma drop_split (k : nat) (s : string) :
  drop k s <> "" -> exists before, s = before ++ drop k s /\ len before = k.
Proof.
  revert s. induction k as [|k IH]; intros s H.
  - exists "". now split.
  - destruct s as [|c s]; [now contradiction H|].
    destruct (IH s H) as (before & E & Hlen).
    exists (String c before). split; [cbn; now rewrite <- E|].
    unfold len in *. cbn. now rewrite Hlen.
Qed.

(** The pattern stands at position [k] exactly when [match_here] matches
    there. *)
Lemma hint_at_match (message : string) (k : nat) (whole frac : string) :
  hint_at message k whole frac ->
  match_here (drop k message) = Some (whole ++ "." ++ frac).
Proof.
  intros (before & after & -> & <- & Nw & Dw & Nf & Df).
  rewrite drop_append. now apply match_here_hint.
Qed.

Lemma match_hint_at (message : string) (k : nat) (g : string) :
  match_here (drop k message) = Some g ->
  exists whole frac, hint_at message k whole frac /\ g = whole ++ "." ++ frac.
Proof.
  intros H.
  destruct (match_here_sound _ _ H) as (whole & frac & rest & E & -> & Nw & Dw & Nf & Df).
  destruct (drop_split k message) as (before & Em & Hlen).
  { rewrite E. discriminate. }
  exists whole, frac. split; [|reflexivity].
  exists before, rest. rewrite E in Em. now repeat split.
Qed.

(** [re.search] steps over the positions where the pattern fails. *)
Lemma search_skip (pre s : string) :
  (forall k, k < len pre -> match_here (drop k (pre ++ s)) = None) ->
  search (pre ++ s) = search s.
Proof.
  induction pre as [|c pre IH]; intros H; [reflexivity|].
  assert (H0 : match_here (String c (pre ++ s)) = None)
    by (apply (H 0); unfold len; cbn; lia).
  cbn [append search]. rewrite H0.
  apply IH. intros k Hk. apply (H (Datatypes.S k)). unfold len in *. cbn. lia.
Qed.

Lemma search_here (s g : string) : match_here s = Some g -> search s = Some g.
Proof. intros H. destruct s; cbn [search]; now rewrite H. Qed.

(** What [re.search] finds stands somewhere in the message. *)
Lemma search_found (s g : string) :
  search s = Some g -> exists k, match_here (drop k s) = Some g.
Proof.
  induction s as [|c s IH]; cbn [search].
  - destruct (match_here "") eqn:E; [|discriminate].
    intros H. injection H as ->. now exists 0.
  - destruct (match_here (String c s)) eqn:E.
    + intros H. injection H as ->. now exists 0.
    + intros H. destruct (IH H) as [k Hk]. now exists (Datatypes.S k).
Qed.

(** The leftmost place where the pattern stands is the one [re.search]
    reports. *)
Lemma search_first_hint (message whole frac : string) :
  first_hint message whole frac -> search message = Some (whole ++ "." ++ frac).
Proof.
  intros (k & Hk & Hleft).
  pose proof (hint_at_match _ _ _ _ Hk) as Hm.
  destruct Hk as (before & after & E & Hlen & _).
  rewrite E in Hm |- *. rewrite <- Hlen in Hm. rewrite drop_append in Hm.
  rewrite search_skip; [now apply search_here|].
  intros k' Hk'. rewrite <- E.
  destruct (match_here (drop k' message)) as [g|] eqn:M; [|reflexivity].
  destruct (match_hint_at _ _ _ M) as (whole' & frac' & H' & _).
  now destruct (Hleft k' whole' frac' ltac:(lia)).
Qed.

Lemma search_no_hint (message : string) : no_hint message -> search message = None.
Proof.
  intros H. destruct (search message) as [g|] eqn:E; [|reflexivity].
  destruct (search_found _ _ E) as [k Hk].
  destruct (match_hint_at _ _ _ Hk) as (whole & frac & H' & _).
  now destruct (H k whole frac).
Qed.

Lemma says_error_message (r : response) (message : string) :
  says r message -> error_message r = Some (JStr message).
Proof.
  intros (top & err & J & E & M). unfold error_message, Json.get.
  now rewrite J, E, M.
Qed.

(** A payload that says nothing has the empty message or none. *)
Lemma error_message_says (r : response) (message : string) :
  error_message r = Some (JStr message) -> says r message \/ message = "".
Proof.
  unfold error_message, Json.get.
  destruct (json r) as [[| | | | |top]|] eqn:J; try discriminate.
  destruct (lookup "error" top) as [[| | | | |err]|] eqn:E; try discriminate.
  - destruct (lookup "message" err) as [v|] eqn:M.
    + intros H. injection H as ->. left. now exists top, err.
    + intros H. injection H as <-. now right.
  - cbn. intros H. injection H as <-. now right.
Qed.

(** The wait of every answer follows the rule. *)
Lemma wait_rule_holds (r : response) : wait_rule r.
Proof.
  split.
  - intros message whole frac Hs Hf.
    unfold wait_time, hint.
    rewrite (says_error_message _ _ Hs), (search_first_hint _ _ _ Hf).
    destruct Hf as (k & (_ & _ & _ & _ & Nw & Dw & Nf & Df) & _).
    now rewrite float_decimal.
  - intros H. unfold wait_time, hint.
    destruct (error_message r) as [[| | |message| |]|] eqn:E; try reflexivity.
    destruct (error_message_says _ _ E) as [Hs| ->].
    + now rewrite (search_no_hint _ (H _ Hs)).
    + reflexivity.
Qed.

(** [float] reads what the pattern captured. *)
Lemma search_float (s g : string) :
  search s = Some g ->
  exists whole frac, float g = Some (Double.round (decimal whole frac)).
Proof.
  intros H. destruct (search_found _ _ H) as [k Hk].
  destruct (match_here_sound _ _ Hk) as (whole & frac & _ & _ & -> & Nw & Dw & Nf & Df).
  exists whole, frac. now apply float_decimal.
Qed.

End PatternFacts.

(** ** The key-phrase client *)

Module ClientFacts.

Import Client WaitHint.

Example wait_time_two_and_a_half :
  hint (Fixture.rate_limited "Rate limit reached. Please try again in 2.50s.")
  = Some "2.50"
  /\ wait_time (Fixture.rate_limited
                  "Rate limit reached. Please try again in 2.50s.")
     = Double.Finite (Qmake 7 2).
Proof. split; reflexivity. Qed.

Example wait_time_without_fraction :
  wait_time (Fixture.rate_limited "Please try again in 2s.") = Double.of_Z 10.
Proof. reflexivity. Qed.

(** The float nearest to 0.1 is not one tenth, and one more than it is
    rounded again. *)
Example wait_time_one_tenth :
  float "0.1" = Some (Double.Finite (Qmake 3602879701896397 36028797018963968))
  /\ wait_time (Fixture.rate_limited "try again in 0.1s")
     = Double.Finite (Qmake 2476979795053773 2251799813685248).
Proof. split; vm_compute; reflexivity. Qed.

(** *** The retry loop *)

Section Loop.

Variable S : Service.
Variables chunk api_key : string.
Variable retry_count : Z.

(** One pass through the loop body, effects written out. *)
Lemma attempts_cons (attempt : Z) (rest : list Z) (w : World S) :
  attempts S chunk api_key retry_count (attempt :: rest) w
  = match post S api_key chunk w with
    | (None, w1) => (Raised, [Post api_key chunk], w1)
    | (Some r, w1) =>
        if (status_code r =? 200)%Z then
          match content_of r with
          | Some content =>
              (Ok (split newline (strip content)), [Post api_key chunk], w1)
          | None => (Raised, [Post api_key chunk], w1)
          end
        else if (status_code r =? 429)%Z then
          if Clock.sleep_raises (wait_time r)
          then (Raised, [Post api_key chunk; Warn_rate_limit (wait_time r)], w1)
          else if (attempt =? retry_count - 1)%Z
          then (Ok [], rate_limit_trace api_key chunk r, w1)
          else let '(res, tr, w2) := attempts S chunk api_key retry_count rest w1 in
               (res, (rate_limit_trace api_key chunk r ++ tr)%list, w2)
        else (Ok [], [Post api_key chunk; Error_status (status_code r);
                      Error_text (text r)], w1)
    end.
Proof.
  cbn [attempts]. unfold Prog.bind, request.
  destruct (post S api_key chunk w) as [[r|] w1]; [|reflexivity].
  destruct (status_code r =? 200)%Z.
  - unfold Prog.of_option. destruct (content_of r); reflexivity.
  - destruct (status_code r =? 429)%Z; [|reflexivity].
    unfold Clock.sleep. destruct (Clock.sleep_raises (wait_time r)); [reflexivity|].
    cbn. destruct (attempt =? retry_count - 1)%Z; [reflexivity|].
    destruct (attempts S chunk api_key retry_count rest w1) as [[res tr] w2].
    reflexivity.
Qed.

(** Requests made while running a trace. *)
Lemma attempts_posts_bounded (todo : list Z) (w : World S) :
  length (filter is_post (snd (fst (attempts S chunk api_key retry_count todo w))))
  <= length todo.
Proof.
  revert w. induction todo as [|attempt rest IH]; intros w; [apply Nat.le_refl|].
  rewrite attempts_cons.
  destruct (post S api_key chunk w) as [[r|] w1]; [|cbn; lia].
  destruct (status_code r =? 200)%Z; [destruct (content_of r); cbn; lia|].
  destruct (status_code r =? 429)%Z; [|cbn; lia].
  destruct (Clock.sleep_raises (wait_time r)); [cbn; lia|].
  destruct (attempt =? retry_count - 1)%Z; [cbn; lia|].
  specialize (IH w1).
  destruct (attempts S chunk api_key retry_count rest w1) as [[res tr] w2].
  cbn in *. lia.
Qed.

Lemma length_range (n : Z) : length (range n) = Z.to_nat n.
Proof. unfold range. now rewrite length_map, length_seq. Qed.

(** Whatever the service answers, one call sends at most [retry_count]
    requests. *)
Lemma requests_bounded (w : World S) :
  length (filter is_post
            (snd (fst (get_key_phrases_for_chunk S chunk api_key retry_count w))))
  <= Z.to_nat retry_count.
Proof.
  unfold get_key_phrases_for_chunk. rewrite <- length_range.
  apply attempts_posts_bounded.
Qed.

(** The service answers 429 to every attempt from number [k] on, and
    every sleep returns. *)
Lemma attempts_all_rate_limited (m k : nat) (w w' : World S) (rs : list response) :
  k + m = Z.to_nat retry_count ->
  answers S api_key chunk m w = (rs, w') ->
  length rs = m ->
  Forall (fun r => status_code r = 429%Z) rs ->
  Forall can_wait rs ->
  attempts S chunk api_key retry_count (map Z.of_nat (seq k m)) w
  = (Ok [], flat_map (rate_limit_trace api_key chunk) rs, w').
Proof.
  revert k w rs. induction m as [|m IH]; intros k w rs Hk Ha Hlen Hall Hcan.
  - cbn in Ha. injection Ha as <- <-. reflexivity.
  - cbn [seq map]. rewrite attempts_cons.
    cbn [answers] in Ha.
    destruct (post S api_key chunk w) as [[r|] w1];
      [|injection Ha as E _; rewrite <- E in Hlen; discriminate Hlen].
    destruct (answers S api_key chunk m w1) as [rs' w2] eqn:Ha'.
    injection Ha as <- <-.
    apply Forall_cons_iff in Hall as [Hr Hall].
    apply Forall_cons_iff in Hcan as [Hc Hcan].
    rewrite Hr, Hc. cbn [Z.eqb Pos.eqb].
    cbn [length] in Hlen. injection Hlen as Hlen.
    destruct (Z.eqb_spec (Z.of_nat k) (retry_count - 1)) as [Hlast|Hmore].
    + assert (Hm : m = 0) by lia. rewrite Hm in Ha', Hlen.
      destruct rs'; [|discriminate Hlen].
      cbn in Ha'. injection Ha' as <-. cbn [flat_map].
      now rewrite app_nil_r.
    + rewrite (IH (Datatypes.S k) w1 rs') by (assumption || lia).
      reflexivity.
Qed.

(** Rate-limited answers before the last attempt are stepped over when
    their sleeps return. *)
Lemma attempts_after_rate_limits (m k : nat) (w w1 : World S)
  (rs : list response) (rest : list Z) :
  answers S api_key chunk m w = (rs, w1) ->
  length rs = m ->
  Forall (fun r => status_code r = 429%Z) rs ->
  Forall can_wait rs ->
  (Z.of_nat (k + m) <= retry_count - 1)%Z ->
  attempts S chunk api_key retry_count (map Z.of_nat (seq k m) ++ rest) w
  = let '(res, tr, w2) := attempts S chunk api_key retry_count rest w1 in
    (res, (flat_map (rate_limit_trace api_key chunk) rs ++ tr)%list, w2).
Proof.
  revert k w rs. induction m as [|m IH]; intros k w rs Ha Hlen Hall Hcan Hk.
  - cbn in Ha. injection Ha as <- <-. cbn.
    now destruct (attempts S chunk api_key retry_count rest _) as [[res tr] w2].
  - cbn [seq map app]. rewrite attempts_cons.
    cbn [answers] in Ha.
    destruct (post S api_key chunk w) as [[r|] w0];
      [|injection Ha as E _; rewrite <- E in Hlen; discriminate Hlen].
    destruct (answers S api_key chunk m w0) as [rs' w2] eqn:Ha'.
    injection Ha as <- <-.
    apply Forall_cons_iff in Hall as [Hr Hall].
    apply Forall_cons_iff in Hcan as [Hc Hcan].
    rewrite Hr, Hc. cbn [Z.eqb Pos.eqb].
    cbn [length] in Hlen. injection Hlen as Hlen.
    destruct (Z.eqb_spec (Z.of_nat k) (retry_count - 1)) as [Hlast|_]; [lia|].
    rewrite (IH (Datatypes.S k) w0 rs' Ha' Hlen Hall Hcan) by lia.
    destruct (attempts S chunk api_key retry_count rest _) as [[res tr] w3].
    cbn [flat_map]. now rewrite <- app_assoc.
Qed.

Lemma range_split (m : nat) :
  (Z.of_nat m < retry_count)%Z ->
  exists rest,
    range retry_count = (map Z.of_nat (seq 0 m) ++ Z.of_nat m :: rest)%list.
Proof.
  intros H. unfold range.
  replace (Z.to_nat retry_count)
    with (m + Datatypes.S (Z.to_nat retry_count - Datatypes.S m)) by lia.
  rewrite seq_app, map_app. cbn [seq map Nat.add]. eauto.
Qed.

End Loop.




End ClientFacts.

(** ** Lines and trimming *)

Module LineFacts.

Lemma split_newline_cons (c : ascii) (s : string) :
  split newline (String c s)
  = if Ascii.eqb c nl
    then "" :: split newline s
    else match split newline s with
         | p :: ps => String c p :: ps
         | [] => [String c ""]
         end.
Proof.
  unfold split. cbn [split_from]. unfold newline at 1. cbn [prefix].
  destruct (ascii_dec nl c) as [<-|N].
  - rewrite Ascii.eqb_refl. now destruct s.
  - destruct (Ascii.eqb_spec c nl) as [->|_]; [now elim N|reflexivity].
Qed.

Lemma split_newline_length (s : string) :
  length (split newline s) = Datatypes.S (count_char nl s).
Proof.
  induction s as [|c s IH]; [reflexivity|].
  rewrite split_newline_cons. cbn [count_char].
  destruct (Ascii.eqb c nl); cbn [length]; [now rewrite IH|].
  destruct (split newline s) as [|p ps]; [discriminate IH|exact IH].
Qed.

Lemma split_newline_no_nl (s : string) :
  Forall (fun p => count_char nl p = 0) (split newline s).
Proof.
  induction s as [|c s IH]; [repeat constructor|].
  rewrite split_newline_cons.
  destruct (Ascii.eqb c nl) eqn:E; [now constructor|].
  destruct (split newline s) as [|p ps].
  - constructor; [|constructor]. cbn. now rewrite E.
  - inversion IH; subst. constructor; [|assumption]. cbn. now rewrite E.
Qed.

Lemma lstrip_split (s : string) :
  exists a, s = a ++ lstrip s /\ all_space a = true.
Proof.
  induction s as [|c s (a & E & A)]; [now exists ""|].
  cbn [lstrip]. destruct (isspace c) eqn:C.
  - exists (String c a). cbn. rewrite C, A. split; [congruence|reflexivity].
  - now exists "".
Qed.

Lemma rstrip_split (s : string) :
  exists b, s = rstrip s ++ b /\ all_space b = true.
Proof.
  induction s as [|c s (b & E & B)]; [now exists ""|].
  cbn [rstrip]. destruct (rstrip s) as [|y r].
  - destruct (isspace c) eqn:C.
    + exists (String c b). cbn in *. rewrite C, B. split; [congruence|reflexivity].
    + exists b. cbn in *. split; congruence.
  - exists b. cbn in *. split; congruence.
Qed.

(** [strip] takes whitespace off both ends and nothing else. *)
Lemma strip_split (s : string) :
  exists a b, s = a ++ strip s ++ b /\ all_space a = true /\ all_space b = true.
Proof.
  destruct (lstrip_split s) as (a & Ea & A).
  destruct (rstrip_split (lstrip s)) as (b & Eb & B).
  exists a, b. unfold strip. now rewrite <- Eb, <- Ea.
Qed.

Lemma lstrip_first (s : string) (c : ascii) :
  first_char (lstrip s) = Some c -> isspace c = false.
Proof.
  induction s as [|x s IH]; [discriminate|].
  cbn [lstrip]. destruct (isspace x) eqn:X; [exact IH|].
  cbn. intros H. now injection H as <-.
Qed.

Lemma rstrip_first (s : string) (c : ascii) :
  first_char (rstrip s) = Some c -> first_char s = Some c.
Proof.
  destruct s as [|x s]; [discriminate|].
  cbn [rstrip]. destruct (rstrip s); [destruct (isspace x)|]; cbn; congruence.
Qed.

Lemma rstrip_last (s : string) (c : ascii) :
  last_char (rstrip s) = Some c -> isspace c = false.
Proof.
  induction s as [|x s IH]; [discriminate|].
  cbn [rstrip]. destruct (rstrip s) as [|y r].
  - destruct (isspace x) eqn:X; [discriminate|].
    cbn. intros H. now injection H as <-.
  - exact IH.
Qed.

Lemma strip_first (s : string) (c : ascii) :
  first_char (strip s) = Some c -> isspace c = false.
Proof. intros H. eapply lstrip_first, rstrip_first, H. Qed.

Lemma strip_last (s : string) (c : ascii) :
  last_char (strip s) = Some c -> isspace c = false.
Proof. apply rstrip_last. Qed.

End LineFacts.

(** ** One answer of the service *)

Module AnswerFacts.

Import Client LineFacts.

Lemma range_positive (n : Z) :
  (0 < n)%Z -> exists rest, range n = 0%Z :: rest.
Proof.
  intros H. unfold range.
  destruct (Z.to_nat n) as [|k] eqn:E; [lia|].
  cbn. eauto.
Qed.

(** A first answer 200 with a well-formed body ends the call with one
    request. *)
Lemma first_answer_success
  (S : Service) (chunk api_key : string) (retry_count : Z)
  (w w1 : World S) (r : response) (content : string) :
  (0 < retry_count)%Z ->
  post S api_key chunk w = (Some r, w1) ->
  status_code r = 200%Z ->
  content_of r = Some content ->
  get_key_phrases_for_chunk S chunk api_key retry_count w
  = (Ok (split newline (strip content)), [Post api_key chunk], w1).
Proof.
  intros Hn Hp Hs Hc. unfold get_key_phrases_for_chunk.
  destruct (range_positive retry_count Hn) as [rest ->].
  rewrite ClientFacts.attempts_cons, Hp, Hs, Hc. reflexivity.
Qed.

(** A first answer that is neither 200 nor 429 ends the call with one
    request, two error messages and no phrase. *)
Lemma first_answer_other
  (S : Service) (chunk api_key : string) (retry_count : Z)
  (w w1 : World S) (r : response) :
  (0 < retry_count)%Z ->
  post S api_key chunk w = (Some r, w1) ->
  status_code r <> 200%Z ->
  status_code r <> 429%Z ->
  get_key_phrases_for_chunk S chunk api_key retry_count w
  = (Ok [], [Post api_key chunk; Error_status (status_code r);
             Error_text (text r)], w1).
Proof.
  intros Hn Hp H200 H429. unfold get_key_phrases_for_chunk.
  destruct (range_positive retry_count Hn) as [rest ->].
  rewrite ClientFacts.attempts_cons, Hp.
  apply Z.eqb_neq in H200, H429. now rewrite H200, H429.
Qed.

(** C6, as the program has it: on a successful answer the client trims
    the content as a whole and cuts it at every line feed.  The phrases are
    the lines of the trimmed content: joined by line feeds they give it
    back, there is one more phrase than line feeds, and no phrase holds a
    line feed.  The trimmed content is the content without the whitespace
    at its two ends; whitespace around a line inside it stays in the
    phrase. *)
Theorem success_returns_lines_of_trimmed_content
  (S : Service) (chunk api_key : string) (retry_count : Z)
  (w w1 : World S) (r : response) (content : string) :
  (0 < retry_count)%Z ->
  post S api_key chunk w = (Some r, w1) ->
  status_code r = 200%Z ->
  content_of r = Some content ->
  exists phrases,
    get_key_phrases_for_chunk S chunk api_key retry_count w
    = (Ok phrases, [Post api_key chunk], w1)
    /\ join newline phrases = strip content
    /\ length phrases = Datatypes.S (count_char nl (strip content))
    /\ Forall (fun p => count_char nl p = 0) phrases
    /\ (exists a b, content = a ++ strip content ++ b
                    /\ all_space a = true /\ all_space b = true)
    /\ (forall c, first_char (strip content) = Some c -> isspace c = false)
    /\ (forall c, last_char (strip content) = Some c -> isspace c = false).
Proof.
  intros Hn Hp Hs Hc. exists (split newline (strip content)).
  split; [now apply first_answer_success with (r := r)|].
  split; [apply join_split; discriminate|].
  split; [apply split_newline_length|].
  split; [apply split_newline_no_nl|].
  split; [apply strip_split|].
  split; [apply strip_first|apply strip_last].
Qed.

Lemma success_returns_lines_of_trimmed_content_witness :
  exists phrases,
    get_key_phrases_for_chunk Fixture.scripted "chunk" "key" 3
      [Fixture.chat_completion (" Alpha point one. " ++ newline ++ " Beta " ++ newline)]
    = (Ok phrases, [Post "key" "chunk"], [])
    /\ join newline phrases = "Alpha point one. " ++ newline ++ " Beta".
Proof.
  destruct (success_returns_lines_of_trimmed_content Fixture.scripted
              "chunk" "key" 3
              [Fixture.chat_completion
                 (" Alpha point one. " ++ newline ++ " Beta " ++ newline)]
              []
              (Fixture.chat_completion
                 (" Alpha point one. " ++ newline ++ " Beta " ++ newline))
              (" Alpha point one. " ++ newline ++ " Beta " ++ newline)
              eq_refl eq_refl eq_refl eq_refl)
    as (phrases & H1 & H2 & _).
  exists phrases. split; [exact H1 | exact H2].
Defined.

(** C6 as stated fails: a line inside the content keeps its own
    surrounding whitespace. *)
Lemma inner_phrases_are_not_trimmed :
  let answer := Fixture.chat_completion ("a " ++ newline ++ " b") in
  ~ (forall phrases tr w',
       get_key_phrases_for_chunk Fixture.scripted "chunk" "key" 3 [answer]
       = (Ok phrases, tr, w') ->
       Forall (fun p => strip p = p) phrases).
Proof.
  cbv zeta. intros H.
  specialize (H ["a "; " b"] [Post "key" "chunk"] [] eq_refl).
  inversion H as [|? ? E _]. vm_compute in E. discriminate E.
Qed.

End AnswerFacts.

(** ** The highlighter *)

Module HighlighterFacts.

Import Highlighter Marks.

Section Pages.

Variable L : PdfLib.

(** The loops of lines 117-125 in closed form: they return when every
    call returns, with the marks added in order. *)
Lemma each_add_highlight_annot (insts : list rect) (pg : page (Content L)) :
  each (add_highlight_annot L) insts pg
  = if forallb (annotates L (content pg)) insts
    then Some {| content := content pg;
                 annots := annots pg ++ map highlight insts |}
    else None.
Proof.
  revert pg. induction insts as [|inst insts IH]; intros pg; cbn [each forallb map].
  - rewrite app_nil_r. now destruct pg.
  - unfold add_highlight_annot at 1.
    destruct (annotates L (content pg) inst); [|reflexivity].
    rewrite IH. cbn [content annots andb]. now rewrite <- app_assoc.
Qed.

Lemma highlight_phrase_closed (pg : page (Content L)) (phrase : string) :
  highlight_phrase L pg phrase
  = if phrase_returns L (content pg) phrase
    then Some {| content := content pg;
                 annots := annots pg ++ found L (content pg) phrase |}
    else None.
Proof.
  unfold highlight_phrase, phrase_returns, found, min_phrase_length.
  change (5 <? len (strip phrase))%nat with (6 <=? len (strip phrase))%nat.
  destruct (6 <=? len (strip phrase))%nat.
  - destruct (search_for L (content pg) (strip phrase)) as [insts|]; [|reflexivity].
    apply each_add_highlight_annot.
  - rewrite app_nil_r. now destruct pg.
Qed.

Lemma highlight_page_closed (key_phrases : list string) (pg : page (Content L)) :
  highlight_page L key_phrases pg
  = if forallb (phrase_returns L (content pg)) key_phrases
    then Some {| content := content pg;
                 annots := annots pg ++ flat_map (found L (content pg)) key_phrases |}
    else None.
Proof.
  unfold highlight_page. revert pg.
  induction key_phrases as [|phrase rest IH]; intros pg; cbn [each forallb flat_map].
  - rewrite app_nil_r. now destruct pg.
  - rewrite highlight_phrase_closed.
    destruct (phrase_returns L (content pg) phrase); [|reflexivity].
    rewrite IH. cbn [content annots andb]. now rewrite <- app_assoc.
Qed.

Lemma highlight_pages_closed (key_phrases : list string) (doc : list (Content L)) :
  highlight_pages L key_phrases (map (opened L) doc)
  = if forallb (fun c => forallb (phrase_returns L c) key_phrases) doc
    then Some (map (marked L key_phrases) doc)
    else None.
Proof.
  induction doc as [|c doc IH]; [reflexivity|].
  cbn [map highlight_pages forallb].
  rewrite highlight_page_closed. cbn [opened content annots app].
  destruct (forallb (phrase_returns L c) key_phrases); [|reflexivity].
  rewrite IH. now destruct (forallb _ doc).
Qed.

(** [highlight_pdf], effects written out. *)
Lemma highlight_pdf_unfold {W} (input : bytes) (key_phrases : list string) (w : W) :
  highlight_pdf L input key_phrases w
  = if tmp_write L input
    then (match fitz_open L input with
          | Some doc =>
              match highlight_pages L key_phrases (map (opened L) doc) with
              | Some pages => saved L pages
              | None => Raised
              end
          | None => Raised
          end,
          [Tmp_write input; Tmp_unlink], w)
    else (Raised, [Tmp_write input], w).
Proof.
  unfold highlight_pdf, annotate_and_save, saved,
    Prog.try_finally, Prog.bind, Prog.of_option, Prog.emit, Prog.ret, Prog.raise.
  destruct (tmp_write L input); [|reflexivity].
  destruct (fitz_open L input) as [doc|]; [|reflexivity].
  destruct (highlight_pages L key_phrases (map (opened L) doc)) as [pages|];
    [|reflexivity].
  cbn. now destruct (save L pages).
Qed.

Lemma phrase_returns_spec (c : Content L) (key_phrases : list string) :
  calls_return L key_phrases c ->
  forallb (phrase_returns L c) key_phrases = true.
Proof.
  intros H. apply forallb_forall. intros phrase Hin.
  unfold phrase_returns. destruct (Nat.leb_spec min_phrase_length (len (strip phrase)))
    as [Hlen|_]; [|reflexivity].
  destruct (H phrase Hin Hlen) as (insts & -> & Hall).
  now apply forallb_forall.
Qed.

Lemma found_marks (c : Content L) (key_phrases : list string) :
  forallb (phrase_returns L c) key_phrases = true ->
  page_marks L key_phrases c (marked L key_phrases c).
Proof.
  intros H. split; [reflexivity|].
  exists (map (found L c) key_phrases). split; [|apply flat_map_concat_map].
  induction key_phrases as [|phrase rest IH]; [constructor|].
  cbn [forallb] in H. apply andb_true_iff in H as [Hp Hr].
  cbn [map]. constructor; [|exact (IH Hr)].
  unfold phrase_marks, found. unfold phrase_returns in Hp.
  destruct (min_phrase_length <=? len (strip phrase))%nat; [|reflexivity].
  destruct (search_for L c (strip phrase)) as [insts|]; [|discriminate].
  now exists insts.
Qed.

Lemma marked_pages (key_phrases : list string) (doc : list (Content L)) :
  forallb (fun c => forallb (phrase_returns L c) key_phrases) doc = true ->
  Forall2 (page_marks L key_phrases) doc (map (marked L key_phrases) doc).
Proof.
  induction doc as [|c doc IH]; [constructor|].
  cbn [forallb map]. intros H. apply andb_true_iff in H as [Hc Hd].
  constructor; [now apply found_marks|exact (IH Hd)].
Qed.

End Pages.

(** C7: when the temporary file is written, the document opens and every
    search and annotation call returns, the document that [highlight_pdf]
    hands to [doc.save] has the pages of the opened document, and on each
    page a phrase whose trimmed length is below six has added no
    annotation, and a longer phrase one yellow highlight for each
    rectangle that the page's search returned for the trimmed phrase, in
    that order, one phrase after the other; [highlight_pdf] returns what
    [doc.save] makes of it. *)
Theorem highlighter_annotations
  (W : Type) (L : PdfLib) (input : bytes) (key_phrases : list string) (w : W)
  (doc : list (Content L)) :
  tmp_write L input = true ->
  fitz_open L input = Some doc ->
  Forall (calls_return L key_phrases) doc ->
  exists annotated,
    Forall2 (page_marks L key_phrases) doc annotated
    /\ highlight_pdf L input key_phrases w
       = (saved L annotated, [Tmp_write input; Tmp_unlink], w).
Proof.
  intros Ht Ho Hc.
  assert (H : forallb (fun c => forallb (phrase_returns L c) key_phrases) doc = true).
  { apply forallb_forall. intros c Hin. apply phrase_returns_spec.
    exact (proj1 (Forall_forall _ _) Hc c Hin). }
  exists (map (marked L key_phrases) doc). split; [now apply marked_pages|].
  now rewrite highlight_pdf_unfold, Ht, Ho, highlight_pages_closed, H.
Qed.

Lemma highlighter_annotations_witness :
  let input := list_byte_of_string "Alpha point one. Beta point two." in
  let mark column :=
    {| region := {| x0 := inject_Z column; y0 := inject_Z 0;
                    x1 := inject_Z (column + 7); y1 := inject_Z 1 |};
       stroke := yellow |} in
  exists annotated,
    Forall2 (page_marks Fixture.paged ["  point "; " a point "; "No such phrase"])
            ["Alpha point one. Beta point two."] annotated
    /\ highlight_pdf Fixture.paged input
         ["  point "; " a point "; "No such phrase"] tt
       = (saved Fixture.paged annotated, [Tmp_write input; Tmp_unlink], tt)
    /\ map annots annotated = [[mark 4%Z; mark 20%Z]].
Proof.
  cbv zeta.
  destruct (highlighter_annotations unit Fixture.paged
              (list_byte_of_string "Alpha point one. Beta point two.")
              ["  point "; " a point "; "No such phrase"] tt
              ["Alpha point one. Beta point two."] eq_refl eq_refl)
    as (annotated & Hm & Hp).
  - repeat constructor. intros phrase _ _. cbn. eauto.
  - exists annotated. split; [exact Hm|]. split; [exact Hp|].
    inversion Hm as [|c pg ? ? [_ (marks & Hf & Ha)] Hrest]; subst.
    inversion Hrest; subst. cbn [map]. rewrite Ha. clear -Hf.
    inversion Hf as [|? m1 ? ? H1 Hf1]; subst.
    inversion Hf1 as [|? m2 ? ? H2 Hf2]; subst.
    inversion Hf2 as [|? m3 ? ? H3 Hf3]; subst.
    inversion Hf3; subst.
    vm_compute in H1. subst m1.
    vm_compute in H2. destruct H2 as (i2 & E2 & ->). injection E2 as <-.
    vm_compute in H3. destruct H3 as (i3 & E3 & ->). injection E3 as <-.
    reflexivity.
Defined.

End HighlighterFacts.

(** ** The driver *)

Module PipelineFacts.

Import Pipeline.

Section Run.

Variable S : Service.
Variable L : PdfLib.

(** The body of the [try], effects written out, for a file that the
    reader accepts. *)
Lemma body_unfold (pdf_bytes : bytes) (button : bool) (pages : list string)
  (w : World S) :
  page_texts L pdf_bytes = Some pages ->
  let text := Extractor.extract_text_from_pdf pages in
  let chunks := Chunker.chunk_text text 3000 in
  body S L pdf_bytes button w
  = if (confirmation_threshold <? length chunks)%nat
    then if button
         then let '(r, tr, w') := run S L pdf_bytes chunks w in
              (r, (announced text chunks ++ Button_shown :: tr)%list, w')
         else (Ok tt, (announced text chunks ++ [Button_shown])%list, w)
    else let '(r, tr, w') := run S L pdf_bytes chunks w in
         (r, (announced text chunks ++ tr)%list, w').
Proof.
  intros Hp text chunks. unfold body, extract, confirm, announced.
  unfold Prog.bind, Prog.of_option, Prog.ret, Prog.emit.
  rewrite Hp. cbv beta iota zeta.
  fold text. fold chunks. clearbody chunks. clearbody text.
  destruct (5 <? length chunks)%nat;
    destruct (confirmation_threshold <? length chunks)%nat;
    try destruct button;
    cbn -[run];
    try (destruct (run S L pdf_bytes chunks w) as [[r tr] w']);
    reflexivity.
Qed.

Lemma main_unfold (pdf_bytes : bytes) (button : bool) (w : World S) :
  main S L (Some pdf_bytes) button w
  = let '(r, tr, w') := body S L pdf_bytes button w in
    (Ok tt, (Title :: File_uploader :: tr ++ reported r)%list, w').
Proof.
  unfold main, Prog.bind, Prog.emit, Prog.try_except.
  destruct (body S L pdf_bytes button w) as [[[[]|] tr] w']; cbn.
  - now rewrite app_nil_r.
  - reflexivity.
Qed.

(** The processing block opens with lines 187 and 188. *)
Lemma run_starts (pdf_bytes : bytes) (chunks : list string) (w : World S) :
  exists tr, snd (fst (run S L pdf_bytes chunks w))
             = Write_processing :: Progress_start :: tr.
Proof.
  unfold run, Prog.bind, Prog.emit.
  destruct (process_chunks S (length chunks) 0 chunks [] w) as [[[all|] tr] w1].
  - destruct (Highlighter.highlight_pdf L pdf_bytes all w1) as [[[out|] tr'] w2];
      cbn; eauto.
  - cbn. eauto.
Qed.

Lemma announced_not_processing (text : string) (chunks : list string) :
  existsb is_processing (announced text chunks ++ [Button_shown]) = false.
Proof.
  unfold announced. now destruct (5 <? length chunks)%nat.
Qed.

(** With no phrase, every page is written back as it was opened. *)
Lemma highlight_pdf_no_phrase (pdf_bytes : bytes) (w : World S)
  (doc : list (Content L)) (out : bytes) :
  tmp_write L pdf_bytes = true ->
  fitz_open L pdf_bytes = Some doc ->
  save L (map (Highlighter.opened L) doc) = Some out ->
  Highlighter.highlight_pdf L pdf_bytes [] w
  = (Ok out, [Tmp_write pdf_bytes; Tmp_unlink], w).
Proof.
  intros Ht Ho Hs.
  rewrite HighlighterFacts.highlight_pdf_unfold, Ht, Ho.
  rewrite HighlighterFacts.highlight_pages_closed.
  cbn [forallb]. rewrite (proj2 (forallb_forall _ _)) by reflexivity.
  unfold Marks.marked. cbn [flat_map]. fold (Highlighter.opened L).
  unfold Marks.saved. now rewrite Hs.
Qed.

End Run.

(** C9: when the text has more than ten chunks, a run in which the button
    was not pressed shows the button and stops, with no event of the
    processing block and no request to the service; a run in which it was
    pressed goes on to the processing block after the button.  With ten
    chunks or fewer the processing block runs whatever the button. *)
Theorem confirmation_gate
  (S : Service) (L : PdfLib) (pdf_bytes : bytes) (pages : list string)
  (w : World S) :
  page_texts L pdf_bytes = Some pages ->
  let text := Extractor.extract_text_from_pdf pages in
  let chunks := Chunker.chunk_text text 3000 in
  (10 < length chunks ->
     main S L (Some pdf_bytes) false w
     = (Ok tt, (Title :: File_uploader :: announced text chunks ++ [Button_shown])%list, w)
     /\ existsb is_processing (snd (fst (main S L (Some pdf_bytes) false w))) = false
     /\ main S L (Some pdf_bytes) true w
        = let '(r, tr, w') := run S L pdf_bytes chunks w in
          (Ok tt, (Title :: File_uploader :: announced text chunks
                   ++ Button_shown :: tr ++ reported r)%list, w'))
  /\ (length chunks <= 10 ->
      forall button,
        main S L (Some pdf_bytes) button w
        = let '(r, tr, w') := run S L pdf_bytes chunks w in
          (Ok tt, (Title :: File_uploader :: announced text chunks
                   ++ tr ++ reported r)%list, w'))
  /\ (exists tr, snd (fst (run S L pdf_bytes chunks w))
                 = Write_processing :: Progress_start :: tr).
Proof.
  intros Hp text chunks.
  pose proof (body_unfold S L pdf_bytes false pages w Hp) as Hf.
  pose proof (body_unfold S L pdf_bytes true pages w Hp) as Ht.
  cbv zeta in Hf, Ht. fold text in Hf, Ht. fold chunks in Hf, Ht.
  unfold confirmation_threshold in Hf, Ht.
  split; [|split; [|apply run_starts]].
  - intros Hn. apply Nat.ltb_lt in Hn. rewrite Hn in Hf, Ht.
    rewrite !main_unfold, Hf, Ht.
    split; [|split].
    + cbn [reported]. now rewrite app_nil_r.
    + cbn [reported snd fst]. rewrite app_nil_r.
      cbn [existsb is_processing orb]. apply announced_not_processing.
    + destruct (run S L pdf_bytes chunks w) as [[r tr] w'].
      now rewrite <- app_assoc.
  - intros Hn button. apply Nat.ltb_ge in Hn. rewrite Hn in Hf, Ht.
    rewrite main_unfold.
    destruct button; [rewrite Ht|rewrite Hf];
      destruct (run S L pdf_bytes chunks w) as [[r tr] w'];
      now rewrite <- app_assoc.
Qed.

Lemma confirmation_gate_witness :
  let pdf_bytes := Fixture.long_pages 11 3001 in
  let text := Extractor.extract_text_from_pdf (Fixture.decode_pages pdf_bytes) in
  let chunks := Chunker.chunk_text text 3000 in
  length chunks = 11
  /\ main Fixture.scripted Fixture.paged (Some pdf_bytes) false []
     = (Ok tt, (Title :: File_uploader :: announced text chunks ++ [Button_shown])%list, []).
Proof.
  cbv zeta.
  assert (H : length (Chunker.chunk_text
                (Extractor.extract_text_from_pdf
                   (Fixture.decode_pages (Fixture.long_pages 11 3001))) 3000) = 11)
    by (vm_compute; reflexivity).
  split; [exact H|].
  destruct (confirmation_gate Fixture.scripted Fixture.paged
              (Fixture.long_pages 11 3001)
              (Fixture.decode_pages (Fixture.long_pages 11 3001)) [] eq_refl)
    as [Hgate _].
  cbv zeta in Hgate. rewrite H in Hgate at 1.
  destruct Hgate as [Hmain _]; [lia|exact Hmain].
Defined.

(** One pass through the loop of lines 193-206, effects written out. *)
Lemma process_chunks_cons (S : Service) (total i : nat) (chunk : string)
  (rest all_key_phrases : list string) (w : World S) :
  process_chunks S total i (chunk :: rest) all_key_phrases w
  = match Client.get_key_phrases_for_chunk S chunk api_key
            Client.default_retry_count w with
    | (Ok key_phrases, tr, w1) =>
        let '(res, tr', w2) :=
          process_chunks S total (i + 1) rest (all_key_phrases ++ key_phrases)%list w1 in
        (res,
         (Progress (i + 1) total :: Info_processing (i + 1) total :: tr
          ++ (if (Z.of_nat i <? Z.of_nat total - 1)%Z
              then [Sleep (inject_Z 1)] else [])
          ++ tr')%list,
         w2)
    | (Raised, tr, w1) =>
        (Raised, Progress (i + 1) total :: Info_processing (i + 1) total :: tr, w1)
    end.
Proof.
  cbn [process_chunks]. unfold Prog.bind, Prog.emit, Prog.ret.
  destruct (Client.get_key_phrases_for_chunk S chunk api_key
              Client.default_retry_count w) as [[[key_phrases|] tr] w1];
    [|reflexivity].
  destruct (Z.of_nat i <? Z.of_nat total - 1)%Z;
    destruct (process_chunks S total (i + 1) rest
                (all_key_phrases ++ key_phrases)%list w1) as [[res tr'] w2];
    cbn; now rewrite ?app_nil_r.
Qed.

(** A chunk whose attempts were all answered 429 does not stop the loop
    when every sleep returns: it goes on with the next chunk, the phrases
    gathered so far unchanged. *)
Lemma rate_limited_chunk_does_not_stop_the_loop
  (S : Service) (total i : nat) (chunk : string)
  (rest all_key_phrases : list string) (w w' : World S) (rs : list response) :
  Client.answers S api_key chunk 3 w = (rs, w') ->
  length rs = 3 ->
  Forall (fun r => status_code r = 429%Z) rs ->
  Forall WaitHint.can_wait rs ->
  exists waits,
    process_chunks S total i (chunk :: rest) all_key_phrases w
    = let '(res, tr, w2) :=
        process_chunks S total (i + 1) rest all_key_phrases w' in
      (res,
       (Progress (i + 1) total :: Info_processing (i + 1) total :: waits
        ++ (if (Z.of_nat i <? Z.of_nat total - 1)%Z
            then [Sleep (inject_Z 1)] else [])
        ++ tr)%list,
       w2).
Proof.
  intros Ha Hlen Hall Hcan.
  eexists. rewrite process_chunks_cons.
  unfold Client.get_key_phrases_for_chunk, Client.default_retry_count, Client.range.
  change (Z.to_nat 3) with 3.
  rewrite (ClientFacts.attempts_all_rate_limited S chunk api_key 3 3 0 w w' rs
             eq_refl Ha Hlen Hall Hcan).
  rewrite app_nil_r. reflexivity.
Qed.



End PipelineFacts.

(** * Further properties of the program *)

Import Grouping WaitHint Trace.
Import Chunker ChunkerFacts ParagraphFacts.

Module ChunkerMore.

Section Loop.

Variable max_chunk_size : Z.

(** Empty paragraphs leave a state without open chunk as it is. *)
Lemma run_all_empty (paragraphs : list string) (st : state) :
  Forall (fun p => p = "") paragraphs ->
  current_chunk st = "" ->
  fold_left (step max_chunk_size) paragraphs st = st.
Proof.
  revert st. induction paragraphs as [|p ps IH]; intros st H Hcur; [reflexivity|].
  apply Forall_cons_iff in H as [-> H]. cbn [fold_left].
  destruct (step_cases max_chunk_size st "") as [(N & _) | [(N & _) | (_ & E)]];
    try contradiction.
  assert (E' : step max_chunk_size st "" = st)
    by (rewrite E; destruct st; cbn in *; now subst).
  rewrite E'. now apply IH.
Qed.

(** Paragraphs that are each longer than the maximum: every step closes
    the open chunk. *)
Lemma run_oversized (paragraphs : list string) (st : state) :
  Forall (fun p => (max_chunk_size < Z.of_nat (len p))%Z) paragraphs ->
  finish (fold_left (step max_chunk_size) paragraphs st)
  = (finish st ++ filter truthy paragraphs)%list.
Proof.
  revert st. induction paragraphs as [|p ps IH]; intros st H.
  - cbn. now rewrite app_nil_r.
  - apply Forall_cons_iff in H as [Hp H]. cbn [fold_left]. rewrite (IH _ H).
    cbn [filter].
    destruct (step_cases max_chunk_size st p)
      as [(N & _ & E) | [(N & B & E) | (Hz & E)]]; rewrite E.
    + destruct (finish_cases st) as [(_ & ->) | (Hz & _)]; [|contradiction].
      unfold finish. cbn [chunks current_chunk].
      destruct (truthy p); [rewrite <- !app_assoc|]; reflexivity.
    + rewrite Nat2Z.inj_add in B. lia.
    + destruct (finish_cases st) as [(N & _) | (_ & ->)]; [contradiction|].
      unfold finish. cbn [chunks current_chunk].
      destruct (truthy p); [rewrite <- !app_assoc|]; reflexivity.
Qed.

End Loop.

Lemma filter_truthy_nil (l : list string) :
  filter truthy l = [] <-> Forall (fun p => p = "") l.
Proof.
  induction l as [|x l IH]; [split; constructor|].
  cbn [filter]. destruct (truthy x) eqn:T.
  - split; [discriminate|]. intros H. apply Forall_cons_iff in H as [-> _].
    discriminate T.
  - apply truthy_false in T. rewrite IH. split.
    + intros H. now constructor.
    + intros H. now apply Forall_cons_iff in H as [_ H].
Qed.

(** The chunker gives no chunk exactly when every paragraph of the text
    is empty. *)
Theorem no_chunk_iff_all_paragraphs_empty (text : string) (max_chunk_size : Z) :
  chunk_text text max_chunk_size = []
  <-> Forall (fun p => p = "") (split blank text).
Proof.
  split.
  - intros H. apply filter_truthy_nil.
    rewrite <- (chunk_text_keeps_paragraphs text max_chunk_size), H. reflexivity.
  - intros H. unfold chunk_text.
    rewrite run_all_empty by (assumption || reflexivity). reflexivity.
Qed.

(** When every paragraph is longer than the maximum, every non-empty
    paragraph is a chunk of its own. *)
Theorem oversized_paragraphs_are_chunks (text : string) (max_chunk_size : Z) :
  Forall (fun p => (max_chunk_size < Z.of_nat (len p))%Z) (split blank text) ->
  chunk_text text max_chunk_size = filter truthy (split blank text).
Proof.
  intros H. unfold chunk_text. now rewrite run_oversized.
Qed.

Lemma oversized_paragraphs_are_chunks_witness :
  chunk_text ("Alpha point one." ++ blank ++ "Beta point two.") 10
  = ["Alpha point one."; "Beta point two."].
Proof.
  apply (oversized_paragraphs_are_chunks
           ("Alpha point one." ++ blank ++ "Beta point two.") 10).
  vm_compute. repeat constructor.
Defined.

End ChunkerMore.

Module GroupingFacts.

Import Grouping.

Lemma len_join_head (sep p : string) (l : list string) :
  len p <= len (join sep (p :: l)).
Proof.
  destruct l as [|q l]; [apply Nat.le_refl|].
  rewrite join_cons by discriminate. rewrite len_append. lia.
Qed.

Lemma join_head_nonempty (sep : string) (g : list string) :
  hd "" g <> "" -> join sep g <> "".
Proof.
  destruct g as [|p g]; cbn [hd]; [congruence|].
  intros N E. pose proof (len_join_head sep p g) as L. rewrite E in L.
  destruct p; [congruence|cbn in L; lia].
Qed.

Lemma fresh_join (p : string) : join blank (fresh p) = p.
Proof.
  unfold fresh. destruct (truthy p) eqn:T; [reflexivity|].
  apply truthy_false in T. now subst.
Qed.

Lemma fresh_head (p : string) : fresh p = [] \/ hd "" (fresh p) <> "".
Proof.
  unfold fresh. destruct (truthy p) eqn:T; [right|now left].
  now apply truthy_true in T.
Qed.

Lemma fresh_head_len (p : string) : len (hd "" (fresh p)) = len p.
Proof.
  unfold fresh. destruct (truthy p) eqn:T; [reflexivity|].
  apply truthy_false in T. now subst.
Qed.

Lemma fresh_filter (p : string) : filter truthy (fresh p) = filter truthy [p].
Proof.
  unfold fresh. destruct (truthy p) eqn:T; cbn [filter]; now rewrite ?T.
Qed.

Section Loop.

Variable max_chunk_size : Z.

Lemma sim_step (gs : gstate) (st : state) (p : string) :
  sim gs st -> sim (gstep max_chunk_size gs p) (step max_chunk_size st p).
Proof.
  intros (Hch & Hcur & Hhd). unfold gstep.
  destruct (open_group gs) as [|q g] eqn:Og.
  - cbn in Hcur.
    destruct (step_cases max_chunk_size st p)
      as [(N & _) | [(N & _) | (_ & ->)]]; try contradiction.
    repeat split; cbn [chunks current_chunk closed_groups open_group].
    + exact Hch.
    + now rewrite fresh_join.
    + apply fresh_head.
  - destruct Hhd as [Hhd|Hhd]; [discriminate|].
    assert (N : current_chunk st <> "")
      by (rewrite Hcur; now apply join_head_nonempty).
    rewrite <- Hcur.
    destruct (step_cases max_chunk_size st p)
      as [(_ & B & ->) | [(_ & B & ->) | (Hz & _)]]; try contradiction.
    + apply Z.ltb_lt in B. rewrite B.
      repeat split; cbn [chunks current_chunk closed_groups open_group].
      * now rewrite map_app, Hch, Hcur.
      * now rewrite fresh_join.
      * apply fresh_head.
    + apply Z.ltb_ge in B. rewrite B.
      repeat split; cbn [chunks current_chunk closed_groups open_group].
      * exact Hch.
      * rewrite join_snoc by discriminate. now rewrite Hcur.
      * right. exact Hhd.
Qed.

Lemma sim_run (ps : list string) (gs : gstate) (st : state) :
  sim gs st ->
  sim (fold_left (gstep max_chunk_size) ps gs) (fold_left (step max_chunk_size) ps st).
Proof.
  revert gs st. induction ps as [|p ps IH]; intros gs st H; [exact H|].
  cbn [fold_left]. now apply IH, sim_step.
Qed.

Lemma sim_finish (gs : gstate) (st : state) :
  sim gs st -> finish st = map (join blank) (gfinish gs).
Proof.
  intros (Hch & Hcur & Hhd). unfold gfinish.
  destruct (open_group gs) as [|q g] eqn:Og.
  - cbn in Hcur. destruct (finish_cases st) as [(N & _) | (_ & ->)];
      [contradiction|exact Hch].
  - destruct Hhd as [Hhd|Hhd]; [discriminate|].
    destruct (finish_cases st) as [(_ & ->) | (Hz & _)].
    + now rewrite map_app, Hch, Hcur.
    + rewrite Hcur in Hz. now apply join_head_nonempty in Hz.
Qed.

(** *** What the runs hold *)

Lemma heads_step (gs : gstate) (p : string) :
  heads_ok gs -> heads_ok (gstep max_chunk_size gs p).
Proof.
  intros [Hc Ho]. unfold gstep.
  destruct (open_group gs) as [|q g] eqn:Og.
  - split; [exact Hc|apply fresh_head].
  - destruct Ho as [Ho|Ho]; [discriminate|].
    destruct (_ <? _)%Z; split; cbn [closed_groups open_group].
    + apply Forall_app. split; [exact Hc|]. now constructor.
    + apply fresh_head.
    + exact Hc.
    + right. exact Ho.
Qed.

Lemma kept_step (gs : gstate) (p : string) :
  filter truthy (concat (closed_groups (gstep max_chunk_size gs p))
                 ++ open_group (gstep max_chunk_size gs p))
  = (filter truthy (concat (closed_groups gs) ++ open_group gs)
     ++ filter truthy [p])%list.
Proof.
  unfold gstep. destruct (open_group gs) as [|q g] eqn:Og.
  - cbn [closed_groups open_group]. rewrite !filter_app, fresh_filter.
    cbn [filter]. now rewrite app_nil_r.
  - destruct (_ <? _)%Z; cbn [closed_groups open_group].
    + rewrite concat_app. cbn [concat]. rewrite app_nil_r.
      now rewrite !filter_app, fresh_filter.
    + now rewrite app_assoc, filter_app.
Qed.

Lemma chain_snoc (l : list (list string)) (x : list string) :
  chain max_chunk_size l ->
  (forall c, nth_error l (pred (length l)) = Some c -> full max_chunk_size c x) ->
  chain max_chunk_size (l ++ [x]).
Proof.
  intros Hl Hx i g g' Hg Hg'.
  destruct (Nat.lt_ge_cases (Datatypes.S i) (length l)) as [Lt|Ge].
  - rewrite nth_error_app1 in Hg, Hg' by lia. eapply Hl; eassumption.
  - assert (Hi : Datatypes.S i = length l).
    { assert (Hlt : Datatypes.S i < length (l ++ [x]))
        by (apply nth_error_Some; congruence).
      rewrite length_app in Hlt. cbn in Hlt. lia. }
    rewrite nth_error_app1 in Hg by lia.
    rewrite nth_error_app2, Hi, Nat.sub_diag in Hg' by lia.
    cbn in Hg'. injection Hg' as <-.
    apply Hx. rewrite <- Hi. exact Hg.
Qed.

Lemma last_snoc (l : list (list string)) (x : list string) :
  nth_error (l ++ [x]) (pred (length (l ++ [x]))) = Some x.
Proof.
  rewrite length_app. cbn [length]. rewrite Nat.add_1_r. cbn [pred].
  rewrite nth_error_app2, Nat.sub_diag by lia. reflexivity.
Qed.

Lemma greedy_step (gs : gstate) (p : string) :
  greedy max_chunk_size gs -> greedy max_chunk_size (gstep max_chunk_size gs p).
Proof.
  intros [Hc Ho]. unfold gstep.
  destruct (open_group gs) as [|q g] eqn:Og.
  - split; cbn [closed_groups open_group]; [exact Hc|].
    intros c Hlast. specialize (Ho c Hlast). unfold full in *.
    rewrite fresh_head_len. cbn [hd len String.length] in Ho. lia.
  - destruct (Z.ltb_spec max_chunk_size
                (Z.of_nat (len (join blank (q :: g)) + len p))) as [B|B];
      split; cbn [closed_groups open_group].
    + now apply chain_snoc.
    + intros c. rewrite last_snoc. intros E. injection E as <-.
      unfold full. now rewrite fresh_head_len.
    + exact Hc.
    + intros c Hlast. exact (Ho c Hlast).
Qed.

Lemma greedy_finish (gs : gstate) : greedy max_chunk_size gs -> chain max_chunk_size (gfinish gs).
Proof.
  intros [Hc Ho]. unfold gfinish.
  destruct (open_group gs) as [|q g]; [exact Hc|now apply chain_snoc].
Qed.

Lemma fits_fresh (p : string) : fits max_chunk_size (fresh p).
Proof.
  intros a q b E N. unfold fresh in E.
  destruct (truthy p); destruct a; try congruence; destruct a; discriminate E.
Qed.

Lemma fits_snoc (g : list string) (p : string) :
  fits max_chunk_size g ->
  (Z.of_nat (len (join blank g) + len p) <= max_chunk_size)%Z ->
  fits max_chunk_size (g ++ [p]).
Proof.
  intros Hg B a q b E N.
  destruct b as [|x b].
  - apply app_inj_tail in E as [-> ->]. exact B.
  - destruct (exists_last (l := x :: b) ltac:(discriminate)) as (b' & y & Eb).
    rewrite Eb in E.
    change (a ++ q :: b' ++ [y])%list with (a ++ (q :: b') ++ [y])%list in E.
    rewrite app_assoc in E. apply app_inj_tail in E as [-> _].
    now apply (Hg a q b').
Qed.

Lemma fits_step (gs : gstate) (p : string) :
  all_fit max_chunk_size gs -> all_fit max_chunk_size (gstep max_chunk_size gs p).
Proof.
  intros [Hc Ho]. unfold gstep.
  destruct (open_group gs) as [|q g] eqn:Og.
  - split; [exact Hc|apply fits_fresh].
  - destruct (Z.ltb_spec max_chunk_size
                (Z.of_nat (len (join blank (q :: g)) + len p))) as [B|B];
      split; cbn [closed_groups open_group].
    + apply Forall_app. split; [exact Hc|]. now constructor.
    + apply fits_fresh.
    + exact Hc.
    + now apply fits_snoc.
Qed.

Lemma fits_run (ps : list string) (gs : gstate) :
  all_fit max_chunk_size gs -> all_fit max_chunk_size (fold_left (gstep max_chunk_size) ps gs).
Proof.
  revert gs. induction ps as [|p ps IH]; intros gs H; [exact H|].
  cbn [fold_left]. now apply IH, fits_step.
Qed.

Lemma fits_finish (gs : gstate) :
  all_fit max_chunk_size gs -> Forall (fits max_chunk_size) (gfinish gs).
Proof.
  intros [Hc Ho]. unfold gfinish.
  destruct (open_group gs) as [|q g]; [exact Hc|].
  apply Forall_app. split; [exact Hc|]. now constructor.
Qed.

Lemma run_invariants (ps : list string) (gs : gstate) :
  heads_ok gs -> greedy max_chunk_size gs ->
  heads_ok (fold_left (gstep max_chunk_size) ps gs)
  /\ greedy max_chunk_size (fold_left (gstep max_chunk_size) ps gs)
  /\ filter truthy (concat (closed_groups (fold_left (gstep max_chunk_size) ps gs))
                    ++ open_group (fold_left (gstep max_chunk_size) ps gs))
     = (filter truthy (concat (closed_groups gs) ++ open_group gs)
        ++ filter truthy ps)%list.
Proof.
  revert gs. induction ps as [|p ps IH]; intros gs Hh Hg.
  - cbn. now rewrite app_nil_r.
  - cbn [fold_left].
    destruct (IH _ (heads_step gs p Hh) (greedy_step gs p Hg)) as (H1 & H2 & H3).
    split; [exact H1|]. split; [exact H2|].
    rewrite H3, kept_step, <- app_assoc. f_equal.
    change (p :: ps) with ([p] ++ ps)%list. now rewrite filter_app.
Qed.

End Loop.

(** The runs behind the chunks of a text. *)
Lemma runs_of_chunk_text (text : string) (max_chunk_size : Z) :
  let runs := groups max_chunk_size (split blank text) in
  chunk_text text max_chunk_size = map (join blank) runs
  /\ Forall (fun g => hd "" g <> "") runs
  /\ filter truthy (concat runs) = filter truthy (split blank text)
  /\ chain max_chunk_size runs
  /\ Forall (fits max_chunk_size) runs.
Proof.
  unfold groups, chunk_text.
  set (ps := split blank text).
  assert (S0 : sim ginit Chunker.init).
  { repeat split. now left. }
  assert (H0 : heads_ok ginit) by (split; [constructor|now left]).
  assert (G0 : greedy max_chunk_size ginit).
  { split; [intros [|i] g g' H; discriminate H|intros c H; discriminate H]. }
  assert (F0 : all_fit max_chunk_size ginit).
  { split; [constructor|]. intros [|x a] p b E N; [congruence|discriminate E]. }
  destruct (run_invariants max_chunk_size ps ginit H0 G0) as ([Hc Ho] & Hg & Hk).
  pose proof (fits_finish max_chunk_size _ (fits_run max_chunk_size ps ginit F0)) as Hf.
  set (gs := fold_left (gstep max_chunk_size) ps ginit) in *.
  cbv zeta.
  split; [apply sim_finish, sim_run, S0|].
  split; [|split; [|split; [apply greedy_finish, Hg|exact Hf]]].
  - unfold gfinish. destruct (open_group gs) as [|q g] eqn:Og; [exact Hc|].
    apply Forall_app. split; [exact Hc|].
    constructor; [|constructor]. destruct Ho as [Ho|Ho]; [discriminate|exact Ho].
  - cbn [ginit closed_groups open_group concat app filter] in Hk.
    rewrite <- Hk. unfold gfinish.
    destruct (open_group gs) as [|q g]; [now rewrite app_nil_r|].
    rewrite concat_app. cbn [concat]. now rewrite app_nil_r.
Qed.

Lemma heads_count (runs : list (list string)) :
  Forall (fun g => hd "" g <> "") runs ->
  length runs <= length (filter truthy (concat runs)).
Proof.
  induction 1 as [|g runs Hg _ IH]; [apply Nat.le_refl|].
  cbn [concat length]. rewrite filter_app, length_app.
  destruct g as [|p g]; [now elim Hg|].
  cbn [hd] in Hg. apply truthy_true in Hg.
  cbn [filter]. rewrite Hg. cbn [length]. lia.
Qed.

(** Every chunk is the join of a run of paragraphs of the text, taken in
    order.  A run starts with a non-empty paragraph, and the runs together
    hold every non-empty paragraph once.  A run was closed only because the
    first paragraph of the next run did not fit: the length of the chunk
    plus the length of that paragraph is over the maximum.  Inside a run,
    every paragraph after the first was added while the chunk so far plus
    the paragraph was within the maximum. *)
Theorem chunks_are_greedy_runs (text : string) (max_chunk_size : Z) :
  exists runs : list (list string),
    chunk_text text max_chunk_size = map (join blank) runs
    /\ Forall (fun g => hd "" g <> "") runs
    /\ filter truthy (concat runs) = filter truthy (split blank text)
    /\ (forall i g g',
          nth_error runs i = Some g -> nth_error runs (Datatypes.S i) = Some g' ->
          (max_chunk_size < Z.of_nat (len (join blank g) + len (hd "" g')))%Z)
    /\ (forall g a p b,
          In g runs -> g = (a ++ p :: b)%list -> a <> [] ->
          (Z.of_nat (len (join blank a) + len p) <= max_chunk_size)%Z).
Proof.
  destruct (runs_of_chunk_text text max_chunk_size) as (H1 & H2 & H3 & H4 & H5).
  exists (groups max_chunk_size (split blank text)).
  split; [exact H1|]. split; [exact H2|]. split; [exact H3|]. split; [exact H4|].
  intros g a p b Hin. rewrite Forall_forall in H5. exact (H5 g Hin a p b).
Qed.

(** There are never more chunks than non-empty paragraphs. *)
Theorem chunks_at_most_paragraphs (text : string) (max_chunk_size : Z) :
  length (chunk_text text max_chunk_size)
  <= length (filter truthy (split blank text)).
Proof.
  destruct (runs_of_chunk_text text max_chunk_size) as (H1 & H2 & H3 & _).
  rewrite H1, length_map, <- H3. now apply heads_count.
Qed.

End GroupingFacts.

Import Extractor ExtractorFacts GroupingFacts.

Module FitFacts.

Section Loop.

Variable max_chunk_size : Z.

(** While the join of the open chunk and the paragraphs to come fits, the
    loop only appends. *)
Lemma run_fits (paragraphs : list string) (st : state) :
  current_chunk st <> "" ->
  (Z.of_nat (len (join blank (current_chunk st :: paragraphs))) <= max_chunk_size)%Z ->
  fold_left (step max_chunk_size) paragraphs st
  = {| chunks := chunks st;
       current_chunk := join blank (current_chunk st :: paragraphs) |}.
Proof.
  revert st. induction paragraphs as [|p ps IH]; intros st N B.
  - now destruct st.
  - cbn [fold_left].
    rewrite join_cons in B by discriminate.
    pose proof (len_join_head blank p ps) as Lp.
    rewrite !len_append, len_blank in B.
    destruct (step_cases max_chunk_size st p)
      as [(_ & B' & _) | [(_ & _ & E) | (Hz & _)]]; [lia| |contradiction].
    assert (G : join blank ((current_chunk st ++ blank ++ p) :: ps)
                = join blank (current_chunk st :: p :: ps))
      by apply (join_glue blank (current_chunk st) p [] ps).
    rewrite E, IH; cbn [chunks current_chunk].
    + now rewrite G.
    + destruct (current_chunk st); [contradiction|discriminate].
    + rewrite G, (join_cons blank (current_chunk st)) by discriminate.
      rewrite !len_append, len_blank. lia.
Qed.

End Loop.

(** A text that fits the maximum and does not begin with an empty
    paragraph is its own single chunk. *)
Theorem text_that_fits_is_one_chunk (text : string) (max_chunk_size : Z) :
  hd "" (split blank text) <> "" ->
  (Z.of_nat (len text) <= max_chunk_size)%Z ->
  chunk_text text max_chunk_size = [text].
Proof.
  intros Hhd Hfit. unfold chunk_text.
  pose proof (join_split blank text ltac:(discriminate)) as J.
  destruct (split blank text) as [|p ps]; [now elim Hhd|].
  cbn [hd] in Hhd. cbn [fold_left].
  destruct (step_cases max_chunk_size Chunker.init p)
    as [(N & _) | [(N & _) | (_ & ->)]]; try (now elim N).
  rewrite run_fits; cbn [chunks current_chunk]; [|assumption|now rewrite J].
  unfold finish. cbn [chunks current_chunk]. rewrite J.
  destruct (truthy text) eqn:T; [reflexivity|].
  apply truthy_false in T. rewrite T in J.
  now apply (join_head_nonempty blank (p :: ps)) in J.
Qed.

Lemma text_that_fits_is_one_chunk_witness :
  chunk_text ("Alpha point one." ++ blank ++ "Beta point two." ++ blank) 3000
  = ["Alpha point one." ++ blank ++ "Beta point two." ++ blank].
Proof.
  apply text_that_fits_is_one_chunk.
  - vm_compute. discriminate.
  - vm_compute. discriminate.
Defined.

End FitFacts.

Module ExtractorMore.

(** The length that line 162 reports: the characters of the pages and two
    more for every page. *)
Theorem extracted_length (pages : list string) :
  len (extract_text_from_pdf pages)
  = list_sum (map len pages) + 2 * length pages.
Proof.
  induction pages as [|p pages IH]; [reflexivity|].
  rewrite extract_cons, !len_append, len_blank, IH.
  change (list_sum (map len (p :: pages)))
    with (len p + list_sum (map len pages)).
  cbn [length]. lia.
Qed.

Lemma split_extracted (pages : list string) :
  Forall (fun p => closed p = true) pages ->
  split blank (extract_text_from_pdf pages) = (pages ++ [""])%list.
Proof.
  induction 1 as [|p pages Hp _ IH]; [reflexivity|].
  rewrite extract_cons, split_closed by assumption. now rewrite IH.
Qed.

(** Pages whose text holds no blank line and does not end in a line feed
    come back as the paragraphs of the extracted text, followed by one
    empty paragraph. *)
Theorem pages_become_paragraphs (pages : list string) :
  Forall (fun p => closed p = true) pages ->
  split blank (extract_text_from_pdf pages) = (pages ++ [""])%list.
Proof. apply split_extracted. Qed.

Lemma pages_become_paragraphs_witness :
  split blank (extract_text_from_pdf ["Alpha point one."; ""; "Beta point two."])
  = ["Alpha point one."; ""; "Beta point two."; ""].
Proof.
  apply (pages_become_paragraphs ["Alpha point one."; ""; "Beta point two."]).
  repeat constructor.
Defined.

(** A document whose pages all give the empty text, or that has no page,
    gives no chunk. *)
Theorem textless_document_gives_no_chunk (pages : list string) (max_chunk_size : Z) :
  Forall (fun p => p = "") pages ->
  chunk_text (extract_text_from_pdf pages) max_chunk_size = [].
Proof.
  intros H. unfold chunk_text.
  rewrite split_extracted by (eapply Forall_impl; [|exact H]; now intros p ->).
  rewrite ChunkerMore.run_all_empty; [reflexivity| |reflexivity].
  apply Forall_app. split; [exact H|]. now constructor.
Qed.

Lemma textless_document_gives_no_chunk_witness :
  chunk_text (extract_text_from_pdf [""; ""; ""]) 3000 = [].
Proof.
  apply textless_document_gives_no_chunk. repeat constructor.
Defined.

End ExtractorMore.

Import Client ClientFacts AnswerFacts.

Module HintFacts.

Import WaitHint.

(** The wait handed to [time.sleep] at line 90 is at least one second,
    whatever the service answers. *)
Theorem wait_is_at_least_one_second (r : response) :
  Double.at_least_one (wait_time r).
Proof.
  unfold wait_time. destruct (hint r) as [g|] eqn:H; [|discriminate].
  unfold hint in H.
  destruct (error_message r) as [[| | |m| |]|]; try discriminate.
  destruct (PatternFacts.search_float _ _ H) as (whole & frac & ->).
  apply DoubleFacts.add_one_at_least_one, DoubleFacts.round_nonneg.
Qed.

(** A 429 answer whose error message holds "try again in D.Fs", with
    digits D and F and no match of the pattern further left, makes the
    client wait what Python computes for [float("D.F") + 1]: the float
    nearest to the decimal D.F, plus one, rounded to a float again. *)
Theorem wait_follows_the_hint (r : response) (message whole frac : string) :
  says r message ->
  first_hint message whole frac ->
  hint r = Some (whole ++ "." ++ frac)
  /\ wait_time r
     = Double.add (Double.round (decimal whole frac)) (Double.of_Z 1).
Proof.
  intros Hs Hf. split.
  - unfold hint. rewrite (PatternFacts.says_error_message _ _ Hs).
    now apply PatternFacts.search_first_hint.
  - now apply (PatternFacts.wait_rule_holds r) with (message := message).
Qed.

Lemma wait_follows_the_hint_witness :
  hint (Fixture.rate_limited "Limit hit, try again in 12.1s (tokens)") = Some "12.1"
  /\ wait_time (Fixture.rate_limited "Limit hit, try again in 12.1s (tokens)")
     = Double.Finite (Qmake 7374644389819187 562949953421312).
Proof.
  destruct (wait_follows_the_hint
              (Fixture.rate_limited "Limit hit, try again in 12.1s (tokens)")
              "Limit hit, try again in 12.1s (tokens)" "12" "1") as [Hh Hw].
  - do 2 eexists. repeat split.
  - exists 11. split.
    + exists "Limit hit, ", " (tokens)". repeat split; discriminate.
    + intros k' whole' frac' Hk H.
      apply PatternFacts.hint_at_match in H.
      do 11 (destruct k' as [|k']; [discriminate H|]). lia.
  - split; [exact Hh|]. rewrite Hw. vm_compute. reflexivity.
Defined.

End HintFacts.

Import Pipeline PipelineFacts.

Module RetryFacts.

Import Trace WaitHint.



(** A rate-limited answer whose wait [time.sleep] refuses, a hint from
    about 9.2e9 seconds on, makes the call raise after the warning: the
    request is not retried and no phrase list is returned. *)
Theorem refused_wait_raises
  (S : Service) (chunk api_key : string) (retry_count : Z)
  (w w1 w2 : World S) (rs : list response) (r : response) :
  answers S api_key chunk (length rs) w = (rs, w1) ->
  Forall (fun r => status_code r = 429%Z) rs ->
  Forall can_wait rs ->
  (Z.of_nat (length rs) < retry_count)%Z ->
  post S api_key chunk w1 = (Some r, w2) ->
  status_code r = 429%Z ->
  Clock.sleep_raises (wait_time r) = true ->
  get_key_phrases_for_chunk S chunk api_key retry_count w
  = (Raised,
     (flat_map (rate_limit_trace api_key chunk) rs
      ++ [Post api_key chunk; Warn_rate_limit (wait_time r)])%list,
     w2).
Proof.
  intros Ha Hall Hcan Hm Hp Hs Hr. unfold get_key_phrases_for_chunk.
  destruct (range_split retry_count (length rs) Hm) as [rest ->].
  rewrite (attempts_after_rate_limits S chunk api_key retry_count
             (length rs) 0 w w1 rs _ Ha eq_refl Hall Hcan) by (cbn; lia).
  rewrite attempts_cons, Hp, Hs, Hr. reflexivity.
Qed.

Lemma refused_wait_raises_witness :
  get_key_phrases_for_chunk Fixture.scripted "chunk" "key" 3
    [Fixture.rate_limited "busy";
     Fixture.rate_limited "try again in 9300000000.0s";
     Fixture.chat_completion "Alpha point one."]
  = (Raised,
     [Post "key" "chunk"; Warn_rate_limit (Double.Finite (inject_Z 10));
      Sleep (inject_Z 10);
      Post "key" "chunk"; Warn_rate_limit (Double.Finite (inject_Z 9300000001))],
     [Fixture.chat_completion "Alpha point one."]).
Proof.
  apply (refused_wait_raises Fixture.scripted "chunk" "key" 3
           [Fixture.rate_limited "busy";
            Fixture.rate_limited "try again in 9300000000.0s";
            Fixture.chat_completion "Alpha point one."]
           [Fixture.rate_limited "try again in 9300000000.0s";
            Fixture.chat_completion "Alpha point one."]
           [Fixture.chat_completion "Alpha point one."]
           [Fixture.rate_limited "busy"]
           (Fixture.rate_limited "try again in 9300000000.0s"));
    try reflexivity; repeat constructor.
Defined.

(** A request that raises, or a 200 answer whose body does not hold
    choices[0].message.content as a string, makes the call raise after
    that one request: nothing is retried and no phrase list is returned. *)
Theorem broken_answer_raises
  (S : Service) (chunk api_key : string) (retry_count : Z) (w w1 : World S) :
  (0 < retry_count)%Z ->
  post S api_key chunk w = (None, w1)
  \/ (exists r, post S api_key chunk w = (Some r, w1)
                /\ status_code r = 200%Z /\ content_of r = None) ->
  get_key_phrases_for_chunk S chunk api_key retry_count w
  = (Raised, [Post api_key chunk], w1).
Proof.
  intros Hn H. unfold get_key_phrases_for_chunk.
  destruct (range_positive retry_count Hn) as [rest ->].
  rewrite attempts_cons.
  destruct H as [-> | (r & -> & Hs & Hc)]; [reflexivity|].
  now rewrite Hs, Hc.
Qed.

Lemma broken_answer_raises_witness :
  get_key_phrases_for_chunk Fixture.scripted "chunk" "key" 3
    [{| status_code := 200; json := Some (Json.JObj [("choices", Json.JArr [])]);
        text := "" |}; Fixture.chat_completion "Alpha point one."]
  = (Raised, [Post "key" "chunk"], [Fixture.chat_completion "Alpha point one."]).
Proof.
  apply broken_answer_raises; [reflexivity|].
  right. eexists. repeat split.
Defined.

(** Whatever the service answers, one call sends at most [retry_count]
    requests, and none when [retry_count] is not positive. *)
Theorem one_call_sends_at_most_retry_count_requests
  (S : Service) (chunk api_key : string) (retry_count : Z) (w : World S) :
  length (filter is_post
            (snd (fst (get_key_phrases_for_chunk S chunk api_key retry_count w))))
  <= Z.to_nat retry_count
  /\ ((retry_count <= 0)%Z ->
      get_key_phrases_for_chunk S chunk api_key retry_count w = (Ok [], [], w)).
Proof.
  split; [apply requests_bounded|].
  intros H. unfold get_key_phrases_for_chunk, range.
  now replace (Z.to_nat retry_count) with 0 by lia.
Qed.

Lemma one_call_sends_at_most_retry_count_requests_witness :
  get_key_phrases_for_chunk Fixture.scripted "chunk" "key" 0
    [Fixture.chat_completion "Alpha point one."]
  = (Ok [], [], [Fixture.chat_completion "Alpha point one."]).
Proof.
  apply (one_call_sends_at_most_retry_count_requests Fixture.scripted
           "chunk" "key" 0 [Fixture.chat_completion "Alpha point one."]).
  discriminate.
Defined.

End RetryFacts.

Module RunFacts.

Import Trace.

Section Run.

Variable S : Service.
Variable L : PdfLib.

(** *** Requests and outcomes in the traces of the client and the loop *)

Lemma attempts_quiet (chunk key : string) (retry_count : Z) (todo : list Z)
  (w : World S) :
  filter is_outcome
    (snd (fst (Client.attempts S chunk key retry_count todo w))) = [].
Proof.
  revert w. induction todo as [|attempt rest IH]; intros w; [reflexivity|].
  rewrite ClientFacts.attempts_cons.
  destruct (post S key chunk w) as [[r|] w1]; [|reflexivity].
  destruct (status_code r =? 200)%Z; [now destruct (Client.content_of r)|].
  destruct (status_code r =? 429)%Z; [|reflexivity].
  destruct (Clock.sleep_raises (wait_time r)); [reflexivity|].
  destruct (_ =? _)%Z; [reflexivity|].
  specialize (IH w1).
  destruct (Client.attempts S chunk key retry_count rest w1) as [[res tr] w2].
  exact IH.
Qed.

Lemma process_chunks_quiet (total i : nat) (chunks acc : list string) (w : World S) :
  filter is_outcome (snd (fst (process_chunks S total i chunks acc w))) = [].
Proof.
  revert i acc w. induction chunks as [|chunk rest IH]; intros i acc w; [reflexivity|].
  rewrite process_chunks_cons.
  pose proof (attempts_quiet chunk api_key Client.default_retry_count
                (Client.range Client.default_retry_count) w) as Q.
  fold (Client.get_key_phrases_for_chunk S chunk api_key Client.default_retry_count) in Q.
  destruct (Client.get_key_phrases_for_chunk S chunk api_key
              Client.default_retry_count w) as [[[phrases|] tr] w1];
    cbn [fst snd] in Q.
  - specialize (IH (i + 1) (acc ++ phrases)%list w1).
    destruct (process_chunks S total (i + 1) rest (acc ++ phrases)%list w1)
      as [[res tr'] w2].
    cbn [fst snd filter is_outcome] in *.
    rewrite !filter_app, Q, IH. now destruct (_ <? _)%Z.
  - cbn [fst snd filter is_outcome]. exact Q.
Qed.

Lemma process_chunks_posts (total i : nat) (chunks acc : list string) (w : World S) :
  length (filter is_post (snd (fst (process_chunks S total i chunks acc w))))
  <= 3 * length chunks.
Proof.
  revert i acc w. induction chunks as [|chunk rest IH]; intros i acc w;
    [apply Nat.le_refl|].
  rewrite process_chunks_cons.
  pose proof (ClientFacts.requests_bounded S chunk api_key
                Client.default_retry_count w) as B.
  change (Z.to_nat Client.default_retry_count) with 3 in B.
  destruct (Client.get_key_phrases_for_chunk S chunk api_key
              Client.default_retry_count w) as [[[phrases|] tr] w1];
    cbn [fst snd] in B.
  - specialize (IH (i + 1) (acc ++ phrases)%list w1).
    destruct (process_chunks S total (i + 1) rest (acc ++ phrases)%list w1)
      as [[res tr'] w2].
    cbn [fst snd filter is_post length] in *.
    rewrite !filter_app, !length_app.
    destruct (_ <? _)%Z; cbn [filter is_post length]; lia.
  - cbn [fst snd filter is_post length]. lia.
Qed.

(** The processing block ends with the download or raises before it. *)
Lemma run_outcome (pdf_bytes : bytes) (chunks : list string) (w : World S) :
  exists r tr w',
    run S L pdf_bytes chunks w = (r, tr, w')
    /\ length (filter is_post tr) <= 3 * length chunks
    /\ ((r = Raised /\ filter is_outcome tr = [])
        \/ (exists data, r = Ok tt /\ filter is_outcome tr = [Success; Download data])).
Proof.
  unfold run, Prog.bind, Prog.emit.
  pose proof (process_chunks_quiet (length chunks) 0 chunks [] w) as Q.
  pose proof (process_chunks_posts (length chunks) 0 chunks [] w) as P.
  destruct (process_chunks S (length chunks) 0 chunks [] w) as [[[all|] tr] w1];
    cbn [fst snd] in Q, P.
  - rewrite HighlighterFacts.highlight_pdf_unfold.
    destruct (tmp_write L pdf_bytes);
      [destruct (match fitz_open L pdf_bytes with Some _ => _ | None => _ end)
         as [out|]|];
      do 3 eexists; (split; [reflexivity|]);
      cbn [app filter is_post is_outcome length];
      rewrite ?filter_app, ?length_app; cbn [filter is_post is_outcome length app].
    + split; [lia|]. right. exists out. now rewrite Q.
    + split; [lia|]. left. now rewrite Q.
    + split; [lia|]. left. now rewrite Q.
  - do 3 eexists. split; [reflexivity|].
    cbn [app filter is_post is_outcome length].
    split; [lia|]. left. split; [reflexivity|exact Q].
Qed.

Lemma announced_quiet (text : string) (chunks : list string) :
  filter is_outcome (announced text chunks) = []
  /\ filter is_post (announced text chunks) = [].
Proof. unfold announced. now destruct (5 <? length chunks)%nat. Qed.

Lemma body_no_pages (pdf_bytes : bytes) (button : bool) (w : World S) :
  page_texts L pdf_bytes = None ->
  body S L pdf_bytes button w = (Raised, [], w).
Proof.
  intros H. unfold body, extract, Prog.bind, Prog.of_option. now rewrite H.
Qed.

End Run.

(** One run of the script never raises, and it ends in one of three ways:
    with no outcome (no file, or the confirmation not given), with the
    error report alone, or with the success message followed by the
    download.  An error report and a download never come together. *)
Theorem run_has_one_outcome
  (S : Service) (L : PdfLib) (uploaded_file : option bytes) (button : bool)
  (w : World S) :
  exists tr w',
    main S L uploaded_file button w = (Ok tt, tr, w')
    /\ (filter is_outcome tr = []
        \/ filter is_outcome tr = [Error_exception]
        \/ exists data, filter is_outcome tr = [Success; Download data]).
Proof.
  destruct uploaded_file as [pdf_bytes|];
    [|do 2 eexists; split; [reflexivity|now left]].
  rewrite main_unfold.
  destruct (page_texts L pdf_bytes) as [pages|] eqn:Hp.
  - rewrite (body_unfold S L pdf_bytes button pages w Hp). cbv zeta.
    set (text := Extractor.extract_text_from_pdf pages).
    set (chunks := Chunker.chunk_text text 3000).
    destruct (announced_quiet text chunks) as [Qa _].
    destruct (run_outcome S L pdf_bytes chunks w)
      as (r & tr & w' & -> & _ & [[-> Q] | (data & -> & Q)]);
      destruct (confirmation_threshold <? length chunks)%nat;
      try destruct button;
      do 2 eexists; (split; [reflexivity|]);
      cbn [app filter is_outcome reported];
      rewrite ?filter_app; cbn [app filter is_outcome reported];
      rewrite ?filter_app, ?Qa, ?Q; cbn [app filter is_outcome];
      eauto.
  - rewrite (body_no_pages S L pdf_bytes button w Hp).
    do 2 eexists. split; [reflexivity|]. right; left. reflexivity.
Qed.

(** One run sends at most three requests per chunk of the text. *)
Theorem requests_per_run
  (S : Service) (L : PdfLib) (pdf_bytes : bytes) (pages : list string)
  (button : bool) (w : World S) :
  page_texts L pdf_bytes = Some pages ->
  length (filter is_post (snd (fst (main S L (Some pdf_bytes) button w))))
  <= 3 * length (Chunker.chunk_text (Extractor.extract_text_from_pdf pages) 3000).
Proof.
  intros Hp. rewrite main_unfold, (body_unfold S L pdf_bytes button pages w Hp).
  cbv zeta.
  set (text := Extractor.extract_text_from_pdf pages).
  set (chunks := Chunker.chunk_text text 3000).
  destruct (announced_quiet text chunks) as [_ Pa].
  destruct (run_outcome S L pdf_bytes chunks w) as (r & tr & w' & E & P & _).
  rewrite E.
  destruct (confirmation_threshold <? length chunks)%nat;
    try destruct button;
    cbn [fst snd app filter is_post];
    rewrite ?filter_app; cbn [app filter is_post];
    rewrite ?filter_app, ?Pa; cbn [app filter is_post length];
    rewrite ?length_app;
    try (destruct r; cbn [reported filter is_post length]); lia.
Qed.

Lemma requests_per_run_witness :
  length (filter is_post
            (snd (fst (main Fixture.scripted Fixture.paged
                         (Some (list_byte_of_string "Alpha point one.")) false
                         [Fixture.rate_limited "busy"; Fixture.server_error]))))
  <= 3 * length (Chunker.chunk_text
                   (Extractor.extract_text_from_pdf
                      (Fixture.decode_pages (list_byte_of_string "Alpha point one.")))
                   3000).
Proof.
  apply (requests_per_run Fixture.scripted Fixture.paged). reflexivity.
Defined.

(** When the text gives no chunk and the temporary file, the opening and
    the saving of the document go through, the run sends no request and
    gathers no phrase, and what it offers for download is what the PDF
    library writes for the input opened and left without annotation. *)
Theorem no_chunks_resaves_unannotated
  (S : Service) (L : PdfLib) (pdf_bytes : bytes) (button : bool)
  (pages : list string) (doc : list (Content L)) (out : bytes) (w : World S) :
  page_texts L pdf_bytes = Some pages ->
  Chunker.chunk_text (Extractor.extract_text_from_pdf pages) 3000 = [] ->
  tmp_write L pdf_bytes = true ->
  fitz_open L pdf_bytes = Some doc ->
  save L (map (Highlighter.opened L) doc) = Some out ->
  process_chunks S 0 0 [] [] w = (Ok [], [], w)
  /\ main S L (Some pdf_bytes) button w
     = (Ok tt,
        [Title; File_uploader;
         Info_extracted (len (Extractor.extract_text_from_pdf pages));
         Text_shown (Extractor.extract_text_from_pdf pages);
         Info_split 0; Write_processing; Progress_start;
         Tmp_write pdf_bytes; Tmp_unlink; Success; Download out],
        w).
Proof.
  intros Hp Hc Ht Ho Hs. split; [reflexivity|].
  rewrite main_unfold, (body_unfold S L pdf_bytes button pages w Hp).
  cbv zeta. rewrite Hc. cbn [length Nat.ltb Nat.leb confirmation_threshold].
  unfold run, Prog.bind, Prog.emit.
  cbn [process_chunks length Prog.ret].
  rewrite (highlight_pdf_no_phrase S L pdf_bytes w doc out Ht Ho Hs).
  reflexivity.
Qed.

Lemma no_chunks_resaves_unannotated_witness :
  main Fixture.scripted Fixture.paged (Some [Byte.x0c]) false []
  = (Ok tt,
     [Title; File_uploader; Info_extracted 4; Text_shown (blank ++ blank);
      Info_split 0; Write_processing; Progress_start;
      Tmp_write [Byte.x0c]; Tmp_unlink; Success;
      Download [Byte.x0c; Fixture.end_marker]],
     []).
Proof.
  apply (no_chunks_resaves_unannotated Fixture.scripted Fixture.paged
           [Byte.x0c] false [""; ""] [""; ""]
           [Byte.x0c; Fixture.end_marker] []);
    reflexivity.
Defined.

End RunFacts.

Module LoopFacts.

Section Loop.

Variable S : Service.

(** Every chunk answered at once: the phrases are gathered in chunk order,
    line by line. *)
Lemma process_chunks_served (total : nat) (chunks : list string) :
  forall (contents : list string) (i : nat) (acc : list string) (w w' : World S),
    served S chunks contents w w' ->
    process_chunks S total i chunks acc w
    = (Ok (acc ++ flat_map lines contents)%list, success_trace total i chunks, w').
Proof.
  induction chunks as [|chunk rest IH]; intros [|content contents] i acc w w' H;
    cbn [served] in H; try contradiction.
  - subst w'. cbn. now rewrite app_nil_r.
  - destruct H as (r & w1 & Hp & Hs & Hc & H).
    rewrite process_chunks_cons.
    rewrite (AnswerFacts.first_answer_success S chunk api_key
               Client.default_retry_count w w1 r content eq_refl Hp Hs Hc).
    rewrite (IH contents (i + 1) _ w1 w' H).
    cbn [success_trace flat_map app]. unfold lines at 2.
    now rewrite <- app_assoc.
Qed.

Lemma success_trace_pauses (chunks : list string) (total i : nat) :
  total = i + length chunks ->
  length (filter is_pause (success_trace total i chunks)) = pred (length chunks).
Proof.
  revert i. induction chunks as [|chunk rest IH]; intros i H; [reflexivity|].
  cbn [success_trace app filter is_pause length pred] in *.
  rewrite filter_app, length_app, (IH (i + 1)) by lia.
  destruct (Z.ltb_spec (Z.of_nat i) (Z.of_nat total - 1));
    destruct rest; cbn [filter is_pause length pred] in *; lia.
Qed.

Lemma success_trace_posts (chunks : list string) (total i : nat) :
  length (filter is_post (success_trace total i chunks)) = length chunks.
Proof.
  revert i. induction chunks as [|chunk rest IH]; intros i; [reflexivity|].
  cbn [success_trace app filter is_post length].
  rewrite filter_app, length_app, IH.
  now destruct (_ <? _)%Z.
Qed.

(** Chunks answered at once, then a chunk on which the client raises. *)
Lemma process_chunks_raise (total : nat) (done : list string) :
  forall (contents : list string) (i : nat) (acc : list string)
         (w w0 w1 : World S) (chunk : string) (rest : list string) (tr : list event),
    served S done contents w w0 ->
    Client.get_key_phrases_for_chunk S chunk api_key Client.default_retry_count w0
    = (Raised, tr, w1) ->
    process_chunks S total i (done ++ chunk :: rest) acc w
    = (Raised,
       (success_trace total i done
        ++ Progress (i + length done + 1) total
           :: Info_processing (i + length done + 1) total :: tr)%list,
       w1).
Proof.
  induction done as [|d done IH];
    intros [|content contents] i acc w w0 w1 chunk rest tr H Hr;
    cbn [served] in H; try contradiction.
  - subst w0. cbn [app success_trace length]. rewrite process_chunks_cons, Hr.
    now rewrite Nat.add_0_r.
  - destruct H as (r & w2 & Hp & Hs & Hc & H).
    cbn [app]. rewrite process_chunks_cons.
    rewrite (AnswerFacts.first_answer_success S d api_key
               Client.default_retry_count w w2 r content eq_refl Hp Hs Hc).
    rewrite (IH contents (i + 1) _ w2 w0 w1 chunk rest tr H Hr).
    cbn [success_trace app length].
    replace (i + 1 + length done + 1) with (i + Datatypes.S (length done) + 1) by lia.
    now rewrite <- !app_assoc.
Qed.

End Loop.

(** When the service answers every chunk at its first request with status
    200 and a well-formed body, the loop gathers the lines of the contents
    in chunk order, sends exactly one request per chunk, and pauses one
    second between two chunks but not after the last. *)
Theorem phrases_are_gathered_in_chunk_order
  (S : Service) (chunks contents : list string) (w w' : World S) :
  served S chunks contents w w' ->
  process_chunks S (length chunks) 0 chunks [] w
  = (Ok (flat_map (fun content => split newline (strip content)) contents),
     success_trace (length chunks) 0 chunks, w')
  /\ length (filter is_post (success_trace (length chunks) 0 chunks)) = length chunks
  /\ length (filter is_pause (success_trace (length chunks) 0 chunks))
     = pred (length chunks).
Proof.
  intros H. split; [|split].
  - now rewrite (process_chunks_served S _ chunks contents 0 [] w w' H).
  - apply success_trace_posts.
  - now apply success_trace_pauses.
Qed.

Lemma phrases_are_gathered_in_chunk_order_witness :
  process_chunks Fixture.scripted 2 0 ["first"; "second"] []
    [Fixture.chat_completion ("  b" ++ newline ++ "c  ");
     Fixture.chat_completion "a"]
  = (Ok ["b"; "c"; "a"],
     [Progress 1 2; Info_processing 1 2; Post api_key "first"; Sleep (inject_Z 1);
      Progress 2 2; Info_processing 2 2; Post api_key "second"],
     []).
Proof.
  apply (phrases_are_gathered_in_chunk_order Fixture.scripted
           ["first"; "second"] ["  b" ++ newline ++ "c  "; "a"]
           [Fixture.chat_completion ("  b" ++ newline ++ "c  ");
            Fixture.chat_completion "a"] []).
  cbn. do 2 eexists. repeat split. do 2 eexists. repeat split.
Defined.

(** When the client raises on a chunk, after chunks that were answered at
    once, the processing block stops there: the later chunks get no
    request, the phrases gathered so far are dropped, the highlighter is
    not run and there is no download. *)
Theorem exception_stops_the_run
  (S : Service) (L : PdfLib) (pdf_bytes : bytes)
  (done contents : list string) (chunk : string) (rest : list string)
  (w w0 w1 : World S) (tr : list event) :
  served S done contents w w0 ->
  Client.get_key_phrases_for_chunk S chunk api_key Client.default_retry_count w0
  = (Raised, tr, w1) ->
  run S L pdf_bytes (done ++ chunk :: rest) w
  = (Raised,
     (Write_processing :: Progress_start
      :: success_trace (length (done ++ chunk :: rest)) 0 done
      ++ Progress (length done + 1) (length (done ++ chunk :: rest))
         :: Info_processing (length done + 1) (length (done ++ chunk :: rest))
         :: tr)%list,
     w1).
Proof.
  intros H Hr. unfold run, Prog.bind, Prog.emit.
  rewrite (process_chunks_raise S _ done contents 0 [] w w0 w1 chunk rest tr H Hr).
  reflexivity.
Qed.

Lemma exception_stops_the_run_witness :
  run Fixture.scripted Fixture.paged [] (["first"] ++ "second" :: ["third"])
    [Fixture.chat_completion "Alpha point one."]
  = (Raised,
     [Write_processing; Progress_start;
      Progress 1 3; Info_processing 1 3; Post api_key "first"; Sleep (inject_Z 1);
      Progress 2 3; Info_processing 2 3; Post api_key "second"],
     []).
Proof.
  apply (exception_stops_the_run Fixture.scripted Fixture.paged []
           ["first"] ["Alpha point one."] "second" ["third"]
           [Fixture.chat_completion "Alpha point one."] [] []
           [Post api_key "second"]).
  - cbn. do 2 eexists. repeat split.
  - reflexivity.
Defined.

End LoopFacts.

Import Highlighter HighlighterFacts LineFacts.

Module PageFacts.

Import Marks.

Section Pages.

Variable L : PdfLib.




Lemma forallb_permutation {A} (f : A -> bool) (l l' : list A) :
  Permutation l l' -> forallb f l = forallb f l'.
Proof.
  induction 1 as [|x l l' _ IH|x y l|l l' l'' _ IH1 _ IH2]; cbn [forallb].
  - reflexivity.
  - now rewrite IH.
  - now rewrite !andb_assoc, (andb_comm (f y)).
  - now rewrite IH1.
Qed.

End Pages.

(** Trimming twice is trimming once. *)
Lemma rstrip_rstrip (s : string) : rstrip (rstrip s) = rstrip s.
Proof.
  induction s as [|c s IH]; [reflexivity|].
  cbn [rstrip]. destruct (rstrip s) as [|y r] eqn:E.
  - destruct (isspace c) eqn:C; [reflexivity|]. cbn [rstrip]. now rewrite C.
  - cbn [rstrip] in IH |- *. now rewrite IH.
Qed.

Lemma lstrip_fixed (s : string) :
  (forall c, first_char s = Some c -> isspace c = false) -> lstrip s = s.
Proof.
  destruct s as [|c s]; [reflexivity|]. intros H. cbn [lstrip].
  now rewrite (H c eq_refl).
Qed.

Lemma strip_strip (s : string) : strip (strip s) = strip s.
Proof.
  unfold strip at 1. rewrite lstrip_fixed by (intros c; apply strip_first).
  unfold strip. apply rstrip_rstrip.
Qed.


(** The annotations of a page do not depend on the order of the phrases,
    up to their own order: a permutation of the phrases gives a
    permutation of the annotations, and the calls on the page raise for
    the one order when they raise for the other. *)
Theorem phrase_order_permutes_annotations
  (L : PdfLib) (phrases phrases' : list string) (pg : page (Content L)) :
  Permutation phrases phrases' ->
  match highlight_page L phrases pg, highlight_page L phrases' pg with
  | Some marked, Some marked' =>
      content marked = content marked'
      /\ Permutation (annots marked) (annots marked')
  | None, None => True
  | _, _ => False
  end.
Proof.
  intros H. rewrite !HighlighterFacts.highlight_page_closed.
  rewrite (forallb_permutation _ _ _ H).
  destruct (forallb _ phrases'); [|exact I].
  split; [reflexivity|]. cbn [annots].
  apply Permutation_app_head. now apply Permutation_flat_map.
Qed.

Lemma phrase_order_permutes_annotations_witness :
  match highlight_page Fixture.paged ["a point"; "Alpha point"]
          (opened Fixture.paged "Alpha point one. Beta point two."),
        highlight_page Fixture.paged ["Alpha point"; "a point"]
          (opened Fixture.paged "Alpha point one. Beta point two.")
  with
  | Some marked, Some marked' =>
      content marked = content marked'
      /\ Permutation (annots marked) (annots marked')
  | None, None => True
  | _, _ => False
  end.
Proof.
  apply (phrase_order_permutes_annotations Fixture.paged
           ["a point"; "Alpha point"] ["Alpha point"; "a point"]).
  apply perm_swap.
Defined.

(** Whitespace around a phrase makes no difference: highlighting the
    trimmed phrases gives the same page as highlighting the phrases. *)
Theorem surrounding_whitespace_is_ignored
  (L : PdfLib) (phrases : list string) (pg : page (Content L)) :
  highlight_page L (map strip phrases) pg = highlight_page L phrases pg.
Proof.
  unfold highlight_page. revert pg.
  induction phrases as [|p phrases IH]; intros pg; [reflexivity|].
  cbn [map each].
  replace (highlight_phrase L pg (strip p)) with (highlight_phrase L pg p)
    by (unfold highlight_phrase; now rewrite strip_strip).
  destruct (highlight_phrase L pg p); [apply IH|reflexivity].
Qed.

End PageFacts.
